(** * Work-item acquisition and dispatch ledger

    Shallow embedding of the persisted schema
    [src/database/schema/001_initial_schema.sql]: the rows the claims
    talk about, the trigger [update_agent_stats_on_job_complete] and the
    views [job_queue], [agent_performance_summary] and
    [daily_earnings_report].  Operations that the schema only declares
    tables for (ingest, the proposal-accept cascade, the rate limiter,
    progress updates and the ledger calls) are modelled from the spec and
    marked so in their doc comments.

    Conventions.  DECIMAL columns are integers scaled by their declared
    number of fractional digits ([score DECIMAL(5,4)] is [0.9] = [9000],
    money [DECIMAL(12,2)] is in cents).  TIMESTAMPTZ values are seconds
    as [Z].  Nullable columns read by the claims are [option]; the enum
    status columns carry a DEFAULT and every status the spec talks about
    is one of the enum values, so they are modelled by the enum type. *)

From Stdlib Require Import ZArith Lia.
From stdpp Require Import base list sorting gmap strings.

Open Scope Z_scope.

(** ** Enums (CREATE TYPE ... AS ENUM) *)

Inductive job_status :=
| js_discovered | js_scored | js_queued | js_applied | js_interviewing
| js_won | js_in_progress | js_delivered | js_completed | js_rejected
| js_expired | js_cancelled | js_disputed.

Inductive proposal_status :=
| ps_draft | ps_submitted | ps_viewed | ps_shortlisted
| ps_accepted | ps_rejected | ps_withdrawn.

Inductive payment_status :=
| pay_pending | pay_processing | pay_completed | pay_disputed
| pay_refunded | pay_cancelled.

Global Instance job_status_eq_dec : EqDecision job_status.
Proof. solve_decision. Defined.
Global Instance proposal_status_eq_dec : EqDecision proposal_status.
Proof. solve_decision. Defined.
Global Instance payment_status_eq_dec : EqDecision payment_status.
Proof. solve_decision. Defined.

(** SQL [x IN (a, b, ...)] over a non-null enum value. *)
Definition status_in {A} `{EqDecision A} (x : A) (xs : list A) : bool :=
  bool_decide (x ∈ xs).

(** ** Table [discovered_jobs] (the WorkItem) *)

Record discovered_job := {
  j_id : Z;
  j_platform : string;
  j_platform_job_id : string;
  j_budget_min : option Z;
  j_budget_max : option Z;
  j_skills_required : list string;
  j_score : option Z;                 (* DECIMAL(5,4), scaled by 10^4 *)
  j_status : job_status;
  j_assigned_agent_id : option Z;
  j_discovered_at : option Z;
  j_expires_at : option Z
}.

(** ** View [job_queue]

<<
WHERE j.status IN ('discovered', 'scored', 'queued')
    AND (j.expires_at IS NULL OR j.expires_at > NOW())
ORDER BY j.score DESC NULLS LAST, j.discovered_at DESC;
>>
    In PostgreSQL a [DESC] key without a NULLS clause sorts nulls
    first; that is the default taken by [discovered_at DESC]. *)

Definition job_queue_where (now : Z) (j : discovered_job) : bool :=
  status_in (j_status j) [js_discovered; js_scored; js_queued] &&
  match j_expires_at j with
  | None => true
  | Some e => Z.ltb now e
  end.

(** [Lt] means the first value is emitted before the second. *)
Definition desc_nulls_last (a b : option Z) : comparison :=
  match a, b with
  | Some x, Some y => Z.compare y x
  | Some _, None => Lt
  | None, Some _ => Gt
  | None, None => Eq
  end.

Definition desc_nulls_first (a b : option Z) : comparison :=
  match a, b with
  | Some x, Some y => Z.compare y x
  | None, Some _ => Lt
  | Some _, None => Gt
  | None, None => Eq
  end.

(** The ORDER BY key of a row and the order it induces. *)
Definition job_queue_key (j : discovered_job) : option Z * option Z :=
  (j_score j, j_discovered_at j).

Definition job_queue_key_cmp (k1 k2 : option Z * option Z) : comparison :=
  match desc_nulls_last k1.1 k2.1 with
  | Eq => desc_nulls_first k1.2 k2.2
  | c => c
  end.

Definition job_queue_key_le (k1 k2 : option Z * option Z) : Prop :=
  job_queue_key_cmp k1 k2 <> Gt.

(** Row [j1] may be emitted before row [j2]. *)
Definition job_queue_le (j1 j2 : discovered_job) : Prop :=
  job_queue_key_le (job_queue_key j1) (job_queue_key j2).

Global Instance job_queue_le_dec : RelDecision job_queue_le.
Proof. intros j1 j2. unfold job_queue_le, job_queue_key_le. apply _. Defined.

(** SQL semantics of the view: any permutation of the selected rows that
    is ordered by the ORDER BY key is a legal answer; the order of rows
    that agree on every key is left to the executor. *)
Definition job_queue_result (now : Z) (db : list discovered_job)
    (r : list discovered_job) : Prop :=
  r ≡ₚ List.filter (job_queue_where now) db /\ Sorted job_queue_le r.

(** One executor run: a stable sort of the selected rows in scan order. *)
Definition job_queue (now : Z) (db : list discovered_job) : list discovered_job :=
  merge_sort job_queue_le (List.filter (job_queue_where now) db).

(** ** Table [agents] (the Worker); only the columns the claims read *)

Record agent := {
  a_id : Z;
  a_total_earnings : Z;               (* DECIMAL(14,2), cents *)
  a_jobs_completed : Z;
  a_jobs_failed : Z;
  a_last_active_at : option Z;
  a_is_deleted : bool
}.

(** ** Table [proposals] *)

Record proposal := {
  p_id : Z;
  p_job_id : Z;
  p_agent_id : Z;
  p_bid_amount : Z;                   (* DECIMAL(10,2), cents *)
  p_status : proposal_status
}.

(** ** Table [active_jobs] (the Contract) *)

Record active_job := {
  aj_id : Z;
  aj_discovered_job_id : Z;
  aj_agent_id : Z;
  aj_proposal_id : option Z;
  aj_agreed_amount : Z;               (* DECIMAL(10,2), cents *)
  aj_progress_percentage : Z;         (* DECIMAL(5,2), scaled by 100 *)
  aj_status : job_status;
  aj_revision_count : Z;
  aj_max_revisions : Z
}.

(** ** Table [earnings] *)

Record earning := {
  e_agent_id : Z;
  e_active_job_id : option Z;
  e_platform : string;
  e_gross_amount : Z;                 (* DECIMAL(12,2), cents *)
  e_platform_fee : Z;
  e_processing_fee : Z;
  e_net_amount : Z;
  e_currency : string;
  e_status : payment_status;
  e_earned_at : option Z
}.

(** ** Table [costs] *)

Record cost := {
  c_agent_id : option Z;
  c_active_job_id : option Z;
  c_cost_type : string;
  c_total_amount : Z;                 (* DECIMAL(12,2), cents *)
  c_currency : string;
  c_incurred_at : Z
}.

(** ** Table [rate_limit_counters], keyed by its UNIQUE constraint
    [(scope_type, scope_id, limit_type, window_start)] *)

Abbreviation rate_limit_key := (string * string * string * Z)%type.

(** ** The database *)

Record store := {
  st_agents : gmap Z agent;
  st_discovered_jobs : gmap Z discovered_job;
  st_proposals : gmap Z proposal;
  st_active_jobs : gmap Z active_job;
  st_earnings : list earning;         (* append-only, in insertion order *)
  st_costs : list cost;               (* append-only, in insertion order *)
  st_rate_limit_counters : gmap rate_limit_key Z;
  st_next_id : Z                      (* source of uuid_generate_v4() *)
}.

(** The empty database. *)
Definition empty_store : store :=
  {| st_agents := ∅; st_discovered_jobs := ∅; st_proposals := ∅;
     st_active_jobs := ∅; st_earnings := []; st_costs := [];
     st_rate_limit_counters := ∅; st_next_id := 1 |}.

(** Error taxonomy of the core (spec, section 7). *)
Inductive core_error :=
| InvalidTransition | RegressionNotAllowed | RevisionLimitExceeded
| RateLimitExceeded | DuplicateKey | InvalidLedgerAmount | NotFound
| ConcurrentConflict.

(** ** Units of work

    A transaction runs on a working copy of the store and either fails
    with a typed error or returns a value and the new store. *)

Definition tx (A : Type) : Type := store -> core_error + (A * store).

Definition tx_ret {A} (a : A) : tx A := fun st => inr (a, st).
Definition tx_fail {A} (e : core_error) : tx A := fun _ => inl e.
Definition tx_bind {A B} (m : tx A) (k : A -> tx B) : tx B :=
  fun st => match m st with
            | inl e => inl e
            | inr (a, st') => k a st'
            end.
Definition tx_get : tx store := fun st => inr (st, st).
Definition tx_put (st : store) : tx unit := fun _ => inr (tt, st).
Definition tx_guard (b : bool) (e : core_error) : tx unit :=
  if b then tx_ret tt else tx_fail e.
Definition tx_lookup {A} (o : option A) : tx A :=
  match o with Some a => tx_ret a | None => tx_fail NotFound end.

Notation "x <-- m ;; k" := (tx_bind m (fun x => k))
  (at level 100, m at next level, right associativity).
Notation "m ;;; k" := (tx_bind m (fun _ => k))
  (at level 100, right associativity).

(** COMMIT on success, ROLLBACK to the snapshot on failure. *)
Definition atomically {A} (t : tx A) (st : store) : (core_error + A) * store :=
  match t st with
  | inl e => (inl e, st)
  | inr (a, st') => (inr a, st')
  end.

(** ** Trigger [update_agent_stats_on_job_complete]

<<
IF NEW.status = 'completed' AND OLD.status != 'completed' THEN
    UPDATE agents SET jobs_completed = jobs_completed + 1,
                      last_active_at = NOW() WHERE id = NEW.agent_id;
ELSIF NEW.status IN ('cancelled', 'disputed') AND OLD.status = 'in_progress' THEN
    UPDATE agents SET jobs_failed = jobs_failed + 1 WHERE id = NEW.agent_id;
END IF;
>>
    An UPDATE whose WHERE matches no row changes nothing: [alter]. *)

Definition bump_completed (now : Z) (a : agent) : agent :=
  {| a_id := a_id a; a_total_earnings := a_total_earnings a;
     a_jobs_completed := a_jobs_completed a + 1;
     a_jobs_failed := a_jobs_failed a;
     a_last_active_at := Some now; a_is_deleted := a_is_deleted a |}.

Definition bump_failed (a : agent) : agent :=
  {| a_id := a_id a; a_total_earnings := a_total_earnings a;
     a_jobs_completed := a_jobs_completed a;
     a_jobs_failed := a_jobs_failed a + 1;
     a_last_active_at := a_last_active_at a; a_is_deleted := a_is_deleted a |}.

Definition update_agent_stats_on_job_complete (now : Z) (OLD NEW : active_job)
    (agents : gmap Z agent) : gmap Z agent :=
  if bool_decide (aj_status NEW = js_completed)
     && negb (bool_decide (aj_status OLD = js_completed)) then
    alter (bump_completed now) (aj_agent_id NEW) agents
  else if status_in (aj_status NEW) [js_cancelled; js_disputed]
          && bool_decide (aj_status OLD = js_in_progress) then
    alter bump_failed (aj_agent_id NEW) agents
  else agents.

(** [UPDATE active_jobs SET ... WHERE id = i] as one statement: the row is
    rewritten and the AFTER UPDATE row trigger runs in the same
    transaction.  No matching row: zero rows updated, nothing fires. *)
Definition update_active_job (now : Z) (i : Z) (f : active_job -> active_job)
    (st : store) : store :=
  match st_active_jobs st !! i with
  | None => st
  | Some old =>
      let new := f old in
      {| st_agents := update_agent_stats_on_job_complete now old new (st_agents st);
         st_discovered_jobs := st_discovered_jobs st;
         st_proposals := st_proposals st;
         st_active_jobs := <[i := new]> (st_active_jobs st);
         st_earnings := st_earnings st;
         st_costs := st_costs st;
         st_rate_limit_counters := st_rate_limit_counters st;
         st_next_id := st_next_id st |}
  end.

(** ** State machine layer: legality tables *)

(** Modelled from the spec: the WorkItem legality table of section 4.1
    (discovered -> scored -> queued -> applied -> interviewing -> won ->
    in_progress -> {delivered -> completed | disputed}; any pre-won state
    may also go to rejected, expired or cancelled).  The schema declares
    the enum only. *)
Definition pre_won (s : job_status) : bool :=
  status_in s [js_discovered; js_scored; js_queued; js_applied; js_interviewing].

Definition job_transition_legal (from to : job_status) : bool :=
  match from, to with
  | js_discovered, js_scored | js_scored, js_queued | js_queued, js_applied
  | js_applied, js_interviewing | js_interviewing, js_won
  | js_won, js_in_progress | js_in_progress, js_delivered
  | js_delivered, js_completed | js_in_progress, js_disputed => true
  | _, (js_rejected | js_expired | js_cancelled) => pre_won from
  | _, _ => false
  end.

(** Modelled from the spec: terminal Proposal states are accepted,
    rejected and withdrawn. *)
Definition proposal_terminal (s : proposal_status) : bool :=
  status_in s [ps_accepted; ps_rejected; ps_withdrawn].

(** ** Store writes used by the operations *)

Definition set_proposals (m : gmap Z proposal) (st : store) : store :=
  {| st_agents := st_agents st; st_discovered_jobs := st_discovered_jobs st;
     st_proposals := m; st_active_jobs := st_active_jobs st;
     st_earnings := st_earnings st; st_costs := st_costs st;
     st_rate_limit_counters := st_rate_limit_counters st;
     st_next_id := st_next_id st |}.

Definition set_discovered_jobs (m : gmap Z discovered_job) (st : store) : store :=
  {| st_agents := st_agents st; st_discovered_jobs := m;
     st_proposals := st_proposals st; st_active_jobs := st_active_jobs st;
     st_earnings := st_earnings st; st_costs := st_costs st;
     st_rate_limit_counters := st_rate_limit_counters st;
     st_next_id := st_next_id st |}.

(** [INSERT INTO active_jobs] with a fresh primary key. *)
Definition insert_active_job (c : active_job) (st : store) : store :=
  {| st_agents := st_agents st; st_discovered_jobs := st_discovered_jobs st;
     st_proposals := st_proposals st;
     st_active_jobs := <[aj_id c := c]> (st_active_jobs st);
     st_earnings := st_earnings st; st_costs := st_costs st;
     st_rate_limit_counters := st_rate_limit_counters st;
     st_next_id := st_next_id st + 1 |}.

Definition with_proposal_status (s : proposal_status) (q : proposal) : proposal :=
  {| p_id := p_id q; p_job_id := p_job_id q; p_agent_id := p_agent_id q;
     p_bid_amount := p_bid_amount q; p_status := s |}.

Definition job_won (w : Z) (j : discovered_job) : discovered_job :=
  {| j_id := j_id j; j_platform := j_platform j;
     j_platform_job_id := j_platform_job_id j;
     j_budget_min := j_budget_min j; j_budget_max := j_budget_max j;
     j_skills_required := j_skills_required j; j_score := j_score j;
     j_status := js_won; j_assigned_agent_id := Some w;
     j_discovered_at := j_discovered_at j; j_expires_at := j_expires_at j |}.

(** ** Proposal accept cascade

    Modelled from the spec: the transition of a Proposal to [accepted]
    (section 4.1).  The schema declares [proposals] and [active_jobs]
    only.  Sub-steps: (a) the proposal becomes accepted and every other
    non-terminal proposal of the same WorkItem rejected, (b) one Contract
    row is inserted with the column defaults of [active_jobs], (c) the
    WorkItem moves to [won]. *)

Definition accept_and_reject_siblings (pid jid : Z) (m : gmap Z proposal)
    : gmap Z proposal :=
  map_imap (fun k q =>
    Some (if bool_decide (k = pid) then with_proposal_status ps_accepted q
          else if bool_decide (p_job_id q = jid) && negb (proposal_terminal (p_status q))
          then with_proposal_status ps_rejected q
          else q)) m.

Definition contract_of (cid : Z) (pid : Z) (p : proposal) : active_job :=
  {| aj_id := cid; aj_discovered_job_id := p_job_id p; aj_agent_id := p_agent_id p;
     aj_proposal_id := Some pid; aj_agreed_amount := p_bid_amount p;
     aj_progress_percentage := 0; aj_status := js_in_progress;
     aj_revision_count := 0; aj_max_revisions := 3 |}.

Definition accept_proposal (pid : Z) : tx Z :=
  st <-- tx_get ;;
  p <-- tx_lookup (st_proposals st !! pid) ;;
  tx_guard (negb (proposal_terminal (p_status p))) InvalidTransition ;;;
  j <-- tx_lookup (st_discovered_jobs st !! p_job_id p) ;;
  tx_guard (job_transition_legal (j_status j) js_won) InvalidTransition ;;;
  (* (a) *)
  tx_put (set_proposals (accept_and_reject_siblings pid (p_job_id p) (st_proposals st)) st) ;;;
  (* (b) *)
  st1 <-- tx_get ;;
  let cid := st_next_id st1 in
  tx_guard (bool_decide (st_active_jobs st1 !! cid = None)) DuplicateKey ;;;
  tx_put (insert_active_job (contract_of cid pid p) st1) ;;;
  (* (c) *)
  st2 <-- tx_get ;;
  tx_put (set_discovered_jobs
            (<[p_job_id p := job_won (p_agent_id p) j]> (st_discovered_jobs st2)) st2) ;;;
  tx_ret cid.

(** ** Ingestion upsert on [UNIQUE(platform, platform_job_id)] *)

Definition job_key (j : discovered_job) : string * string :=
  (j_platform j, j_platform_job_id j).

(** Index lookup on the unique key. *)
Definition find_job_by_key (k : string * string) (m : gmap Z discovered_job)
    : option (Z * discovered_job) :=
  snd <$> list_find (fun ij => job_key ij.2 = k) (map_to_list m).

(** [INSERT INTO discovered_jobs]: both the primary key and the UNIQUE
    constraint reject a conflicting row with [DuplicateKey]. *)
Definition insert_discovered_job (j : discovered_job) : tx unit :=
  st <-- tx_get ;;
  tx_guard (bool_decide (st_discovered_jobs st !! j_id j = None)) DuplicateKey ;;;
  match find_job_by_key (job_key j) (st_discovered_jobs st) with
  | Some _ => tx_fail DuplicateKey
  | None =>
      tx_put (set_discovered_jobs (<[j_id j := j]> (st_discovered_jobs st)) st)
  end.

Record ingest_payload := {
  pl_budget_min : option Z;
  pl_budget_max : option Z;
  pl_skills_required : list string;
  pl_score : option Z;
  pl_status : option job_status;
  pl_discovered_at : Z                (* source timestamp of the payload *)
}.

Inductive ingest_outcome := Created | Updated.

(** Modelled from the spec: [ingest] of section 4.2.  A payload whose
    source timestamp is older than the stored [discovered_at] is a no-op;
    otherwise budget, score and skills are merged (a missing value keeps
    the stored one) and the status is taken only while the stored status
    is still pre-applied. *)
Definition ingest_stale (stored : option Z) (ts : Z) : bool :=
  match stored with Some s => Z.ltb ts s | None => false end.

Definition merge_job (pl : ingest_payload) (j : discovered_job) : discovered_job :=
  {| j_id := j_id j; j_platform := j_platform j;
     j_platform_job_id := j_platform_job_id j;
     j_budget_min := match pl_budget_min pl with Some b => Some b | None => j_budget_min j end;
     j_budget_max := match pl_budget_max pl with Some b => Some b | None => j_budget_max j end;
     j_skills_required := pl_skills_required pl;
     j_score := match pl_score pl with Some s => Some s | None => j_score j end;
     j_status :=
       match pl_status pl with
       | Some s => if status_in (j_status j) [js_discovered; js_scored; js_queued]
                   then s else j_status j
       | None => j_status j
       end;
     j_assigned_agent_id := j_assigned_agent_id j;
     j_discovered_at := Some (pl_discovered_at pl);
     j_expires_at := j_expires_at j |}.

Definition new_job (i : Z) (platform platform_job_id : string) (pl : ingest_payload)
    : discovered_job :=
  {| j_id := i; j_platform := platform; j_platform_job_id := platform_job_id;
     j_budget_min := pl_budget_min pl; j_budget_max := pl_budget_max pl;
     j_skills_required := pl_skills_required pl; j_score := pl_score pl;
     j_status := js_discovered; j_assigned_agent_id := None;
     j_discovered_at := Some (pl_discovered_at pl); j_expires_at := None |}.

Definition bump_next_id : tx Z :=
  st <-- tx_get ;;
  tx_put {| st_agents := st_agents st; st_discovered_jobs := st_discovered_jobs st;
            st_proposals := st_proposals st; st_active_jobs := st_active_jobs st;
            st_earnings := st_earnings st; st_costs := st_costs st;
            st_rate_limit_counters := st_rate_limit_counters st;
            st_next_id := st_next_id st + 1 |} ;;;
  tx_ret (st_next_id st).

Definition ingest (platform platform_job_id : string) (pl : ingest_payload)
    : tx ingest_outcome :=
  st <-- tx_get ;;
  match find_job_by_key (platform, platform_job_id) (st_discovered_jobs st) with
  | None =>
      i <-- bump_next_id ;;
      insert_discovered_job (new_job i platform platform_job_id pl) ;;;
      tx_ret Created
  | Some (i, j) =>
      if ingest_stale (j_discovered_at j) (pl_discovered_at pl) then tx_ret Updated
      else tx_put (set_discovered_jobs (<[i := merge_job pl j]> (st_discovered_jobs st)) st) ;;;
           tx_ret Updated
  end.

(** [UNIQUE(platform, platform_job_id)] holds of a table. *)
Definition unique_job_keys (m : gmap Z discovered_job) : Prop :=
  forall i1 i2 j1 j2, m !! i1 = Some j1 -> m !! i2 = Some j2 ->
  job_key j1 = job_key j2 -> i1 = i2.

(** ** Rate limiter over [rate_limit_counters] *)

Definition set_rate_limit_counters (m : gmap rate_limit_key Z) (st : store) : store :=
  {| st_agents := st_agents st; st_discovered_jobs := st_discovered_jobs st;
     st_proposals := st_proposals st; st_active_jobs := st_active_jobs st;
     st_earnings := st_earnings st; st_costs := st_costs st;
     st_rate_limit_counters := m; st_next_id := st_next_id st |}.

(** Modelled from the spec: [windowStart = floor(now / windowDuration) * windowDuration]. *)
Definition window_start (now windowDuration : Z) : Z :=
  (now / windowDuration) * windowDuration.

(** Modelled from the spec: [checkAndIncrement] of section 4.3, one
    atomic check-and-increment of the counter row of the current window.
    A missing row reads as 0 and is created by the increment; an exceeded
    limit leaves the counter as it is.  Success returns the remaining
    budget of the window. *)
Definition checkAndIncrement (scopeType scopeId limitType : string)
    (limit windowDuration now : Z) : tx Z :=
  st <-- tx_get ;;
  let k := (scopeType, scopeId, limitType, window_start now windowDuration) in
  let counter := default 0 (st_rate_limit_counters st !! k) in
  if Z.ltb counter limit then
    tx_put (set_rate_limit_counters
              (<[k := counter + 1]> (st_rate_limit_counters st)) st) ;;;
    tx_ret (limit - (counter + 1))
  else tx_fail RateLimitExceeded.

(** A caller issuing one [checkAndIncrement] per time stamp, each in its
    own unit of work. *)
Fixpoint run_checks (scopeType scopeId limitType : string) (limit windowDuration : Z)
    (times : list Z) (st : store) : list (core_error + Z) * store :=
  match times with
  | [] => ([], st)
  | t :: ts =>
      let '(r, st1) :=
        atomically (checkAndIncrement scopeType scopeId limitType limit windowDuration t) st in
      let '(rs, st2) := run_checks scopeType scopeId limitType limit windowDuration ts st1 in
      (r :: rs, st2)
  end.

(** ** Contract progress updates *)

Definition with_progress (v : Z) (revision : bool) (c : active_job) : active_job :=
  {| aj_id := aj_id c; aj_discovered_job_id := aj_discovered_job_id c;
     aj_agent_id := aj_agent_id c; aj_proposal_id := aj_proposal_id c;
     aj_agreed_amount := aj_agreed_amount c;
     aj_progress_percentage := v; aj_status := aj_status c;
     aj_revision_count := if revision then aj_revision_count c + 1
                          else aj_revision_count c;
     aj_max_revisions := aj_max_revisions c |}.

(** Modelled from the spec: progress updates of section 4.1.  Accepted
    only while the Contract is [in_progress]; a lower value than the
    current one is rejected unless submitted as a revision; a revision
    increments [revision_count], which may not exceed [max_revisions].
    The write goes through the UPDATE statement, so the row trigger runs. *)
Definition updateProgress (now : Z) (contract : Z) (value : Z) (revision : bool)
    : tx unit :=
  st <-- tx_get ;;
  c <-- tx_lookup (st_active_jobs st !! contract) ;;
  tx_guard (bool_decide (aj_status c = js_in_progress)) InvalidTransition ;;;
  (if revision
   then tx_guard (Z.leb (aj_revision_count c + 1) (aj_max_revisions c)) RevisionLimitExceeded
   else tx_guard (Z.leb (aj_progress_percentage c) value) RegressionNotAllowed) ;;;
  tx_put (update_active_job now contract (with_progress value revision) st).

(** ** Ledger *)

Definition append_earning (e : earning) (st : store) : store :=
  {| st_agents := st_agents st; st_discovered_jobs := st_discovered_jobs st;
     st_proposals := st_proposals st; st_active_jobs := st_active_jobs st;
     st_earnings := st_earnings st ++ [e]; st_costs := st_costs st;
     st_rate_limit_counters := st_rate_limit_counters st;
     st_next_id := st_next_id st |}.

Definition append_cost (c : cost) (st : store) : store :=
  {| st_agents := st_agents st; st_discovered_jobs := st_discovered_jobs st;
     st_proposals := st_proposals st; st_active_jobs := st_active_jobs st;
     st_earnings := st_earnings st; st_costs := st_costs st ++ [c];
     st_rate_limit_counters := st_rate_limit_counters st;
     st_next_id := st_next_id st |}.

Definition set_agents (m : gmap Z agent) (st : store) : store :=
  {| st_agents := m; st_discovered_jobs := st_discovered_jobs st;
     st_proposals := st_proposals st; st_active_jobs := st_active_jobs st;
     st_earnings := st_earnings st; st_costs := st_costs st;
     st_rate_limit_counters := st_rate_limit_counters st;
     st_next_id := st_next_id st |}.

Definition add_earnings (amount : Z) (a : agent) : agent :=
  {| a_id := a_id a; a_total_earnings := a_total_earnings a + amount;
     a_jobs_completed := a_jobs_completed a; a_jobs_failed := a_jobs_failed a;
     a_last_active_at := a_last_active_at a; a_is_deleted := a_is_deleted a |}.

(** Modelled from the spec: [recordEarning] of section 4.4.  The entry is
    refused with [InvalidLedgerAmount] when [gross - platform fee -
    processing fee] is negative ("net amount must be >= 0 or the call
    fails"); otherwise it is tied to the Contract (its Worker, its
    WorkItem's platform) and starts in the column default status
    [pending].  The Stats Aggregator adds the net amount to the Worker's
    cached [total_earnings] in the same unit of work. *)
Definition recordEarning (now : Z) (contract : Z)
    (grossAmount platformFee processingFee : Z) (currency : string) : tx earning :=
  let netAmount := grossAmount - platformFee - processingFee in
  tx_guard (Z.leb 0 netAmount) InvalidLedgerAmount ;;;
  st <-- tx_get ;;
  c <-- tx_lookup (st_active_jobs st !! contract) ;;
  j <-- tx_lookup (st_discovered_jobs st !! aj_discovered_job_id c) ;;
  let e := {| e_agent_id := aj_agent_id c; e_active_job_id := Some contract;
              e_platform := j_platform j; e_gross_amount := grossAmount;
              e_platform_fee := platformFee; e_processing_fee := processingFee;
              e_net_amount := netAmount; e_currency := currency;
              e_status := pay_pending; e_earned_at := Some now |} in
  tx_put (set_agents (alter (add_earnings netAmount) (aj_agent_id c) (st_agents st))
            (append_earning e st)) ;;;
  tx_ret e.

Inductive cost_owner := OwnerWorker (w : Z) | OwnerContract (c : Z).

(** Modelled from the spec: [recordCost] of section 4.4.  The owner must
    exist (the foreign keys of [costs]); a Worker cost fills [agent_id],
    a Contract cost fills [active_job_id]. *)
Definition recordCost (now : Z) (owner : cost_owner) (category : string)
    (amount : Z) (currency : string) : tx cost :=
  st <-- tx_get ;;
  ids <-- (match owner with
           | OwnerWorker w => _ <-- tx_lookup (st_agents st !! w) ;; tx_ret (Some w, None)
           | OwnerContract c => _ <-- tx_lookup (st_active_jobs st !! c) ;; tx_ret (None, Some c)
           end) ;;
  let x := {| c_agent_id := ids.1; c_active_job_id := ids.2; c_cost_type := category;
              c_total_amount := amount; c_currency := currency; c_incurred_at := now |} in
  tx_put (append_cost x st) ;;;
  tx_ret x.

(** ** View [agent_performance_summary] (the columns the claims read)

<<
(SELECT SUM(c.total_amount) FROM costs c WHERE c.agent_id = a.id) as total_costs,
a.total_earnings - COALESCE((SELECT SUM(c.total_amount) FROM costs c
                             WHERE c.agent_id = a.id), 0) as net_profit
FROM agents a WHERE NOT a.is_deleted;
>> *)

Record performance_row := {
  ps_id : Z;
  ps_total_earnings : Z;
  ps_total_costs : option Z;
  ps_net_profit : Z
}.

(** SQL [SUM]: NULL over no rows. *)
Definition sql_sum (l : list Z) : option Z :=
  match l with [] => None | _ => Some (fold_right Z.add 0 l) end.

Definition coalesce (o : option Z) (d : Z) : Z := default d o.

Definition agent_costs (w : Z) (costs : list cost) : list Z :=
  List.map c_total_amount (List.filter (fun c => bool_decide (c_agent_id c = Some w)) costs).

Definition agent_performance_summary (st : store) : gmap Z performance_row :=
  omap (fun a =>
    if a_is_deleted a then None
    else Some {| ps_id := a_id a; ps_total_earnings := a_total_earnings a;
                 ps_total_costs := sql_sum (agent_costs (a_id a) (st_costs st));
                 ps_net_profit := a_total_earnings a
                   - coalesce (sql_sum (agent_costs (a_id a) (st_costs st))) 0 |})
    (st_agents st).

(** The per-Worker count columns of the same view:
<<
a.jobs_completed, a.jobs_failed,
(SELECT COUNT( * ) FROM active_jobs aj
  WHERE aj.agent_id = a.id AND aj.status = 'in_progress') as active_jobs,
(SELECT COUNT( * ) FROM proposals p
  WHERE p.agent_id = a.id AND p.status = 'submitted') as pending_proposals
>> *)

Record performance_counts := {
  pc_id : Z;
  pc_jobs_completed : Z;
  pc_jobs_failed : Z;
  pc_active_jobs : nat;
  pc_pending_proposals : nat
}.

Definition agent_performance_counts (st : store) : gmap Z performance_counts :=
  omap (fun a =>
    if a_is_deleted a then None
    else Some {| pc_id := a_id a; pc_jobs_completed := a_jobs_completed a;
                 pc_jobs_failed := a_jobs_failed a;
                 pc_active_jobs :=
                   length (List.filter (fun c => bool_decide (aj_agent_id c = a_id a) &&
                                                 bool_decide (aj_status c = js_in_progress))
                             (List.map snd (map_to_list (st_active_jobs st))));
                 pc_pending_proposals :=
                   length (List.filter (fun p => bool_decide (p_agent_id p = a_id a) &&
                                                 bool_decide (p_status p = ps_submitted))
                             (List.map snd (map_to_list (st_proposals st)))) |})
    (st_agents st).

(** ** Ledger replay *)

Inductive ledger_entry := LEarning (e : earning) | LCost (c : cost).

Definition ledger_ts (x : ledger_entry) : Z :=
  match x with
  | LEarning e => default 0 (e_earned_at e)
  | LCost c => c_incurred_at c
  end.

Definition ledger_owned_by (w : Z) (x : ledger_entry) : bool :=
  match x with
  | LEarning e => bool_decide (e_agent_id e = w)
  | LCost c => bool_decide (c_agent_id c = Some w)
  end.

Definition ledger_le (x y : ledger_entry) : Prop := ledger_ts x <= ledger_ts y.

Global Instance ledger_le_dec : RelDecision ledger_le.
Proof. intros x y. unfold ledger_le. apply _. Defined.

(** The Worker's LedgerEntry stream in timestamp order. *)
Definition ledger_stream (st : store) (w : Z) : list ledger_entry :=
  merge_sort ledger_le
    (List.filter (ledger_owned_by w)
       (List.map LEarning (st_earnings st) ++ List.map LCost (st_costs st))).

Definition replay_step (acc : Z) (x : ledger_entry) : Z :=
  match x with
  | LEarning e => acc + e_net_amount e
  | LCost c => acc - c_total_amount c
  end.

Definition replay_net_profit (st : store) (w : Z) : Z :=
  fold_left replay_step (ledger_stream st w) 0.

Inductive ledger_call :=
| CallEarning (now contract grossAmount platformFee processingFee : Z) (currency : string)
| CallCost (now : Z) (owner : cost_owner) (category : string) (amount : Z) (currency : string).

Definition run_ledger_call (st : store) (call : ledger_call) : store :=
  match call with
  | CallEarning now c g pf pr cur => (atomically (recordEarning now c g pf pr cur) st).2
  | CallCost now o cat amt cur => (atomically (recordCost now o cat amt cur) st).2
  end.

Definition run_ledger_calls (st : store) (calls : list ledger_call) : store :=
  fold_left run_ledger_call calls st.

(** Every [agents] row sits under its own primary key. *)
Definition agents_keyed (st : store) : Prop :=
  forall w a, st_agents st !! w = Some a -> a_id a = w.

(** The cached [total_earnings] of every Worker is the sum of the net
    amounts of its earnings (true of a Worker with no history and 0). *)
Definition earnings_cached (st : store) : Prop :=
  forall w a, st_agents st !! w = Some a ->
  a_total_earnings a =
    fold_right Z.add 0
      (List.map e_net_amount (List.filter (fun e => bool_decide (e_agent_id e = w)) (st_earnings st))).

(** ** View [daily_earnings_report]

<<
SELECT DATE(e.earned_at) as date, e.platform, COUNT( * ) as transaction_count,
       SUM(e.gross_amount) as gross_earnings, SUM(e.platform_fee) as platform_fees,
       SUM(e.net_amount) as net_earnings
FROM earnings e WHERE e.status = 'completed'
GROUP BY DATE(e.earned_at), e.platform
ORDER BY date DESC, platform;
>>
    [DATE] of a timestamp in a UTC session is its day number. *)

Definition sql_date (t : option Z) : option Z := (fun s => s / 86400) <$> t.

Definition report_key (e : earning) : option Z * string :=
  (sql_date (e_earned_at e), e_platform e).

Record report_row := {
  r_date : option Z;
  r_platform : string;
  r_transaction_count : nat;
  r_gross_earnings : Z;
  r_platform_fees : Z;
  r_net_earnings : Z
}.

Definition report_where (e : earning) : bool := bool_decide (e_status e = pay_completed).

Definition report_key_le (k1 k2 : option Z * string) : Prop :=
  match desc_nulls_first k1.1 k2.1 with
  | Eq => String.compare k1.2 k2.2 <> Gt
  | c => c <> Gt
  end.

Global Instance report_key_le_dec : RelDecision report_key_le.
Proof.
  intros k1 k2. unfold report_key_le.
  destruct (desc_nulls_first k1.1 k2.1); apply _.
Defined.

Definition report_group (rows : list earning) (k : option Z * string) : report_row :=
  let g := List.filter (fun e => bool_decide (report_key e = k)) rows in
  {| r_date := k.1; r_platform := k.2; r_transaction_count := length g;
     r_gross_earnings := fold_right Z.add 0 (List.map e_gross_amount g);
     r_platform_fees := fold_right Z.add 0 (List.map e_platform_fee g);
     r_net_earnings := fold_right Z.add 0 (List.map e_net_amount g) |}.

Definition daily_earnings_report (earnings : list earning) : list report_row :=
  let rows := List.filter report_where earnings in
  List.map (report_group rows)
    (merge_sort report_key_le (remove_dups (List.map report_key rows))).

(** * Proofs *)

(** ** The ORDER BY of [job_queue] is a total order on keys *)

Ltac zcmp :=
  repeat match goal with
         | |- context [Z.compare ?x ?y] => destruct (Z.compare_spec x y)
         end.

Lemma job_queue_key_cmp_antisym (k1 k2 : option Z * option Z) :
  job_queue_key_cmp k2 k1 = CompOpp (job_queue_key_cmp k1 k2).
Proof.
  destruct k1 as [[a1|] [b1|]], k2 as [[a2|] [b2|]];
    unfold job_queue_key_cmp, desc_nulls_last, desc_nulls_first; simpl;
    zcmp; simpl; auto; lia.
Qed.

Lemma job_queue_key_cmp_eq (k1 k2 : option Z * option Z) :
  job_queue_key_cmp k1 k2 = Eq -> k1 = k2.
Proof.
  destruct k1 as [[a1|] [b1|]], k2 as [[a2|] [b2|]];
    unfold job_queue_key_cmp, desc_nulls_last, desc_nulls_first; simpl;
    zcmp; simpl; intros; subst; congruence.
Qed.

Lemma job_queue_key_cmp_trans (k1 k2 k3 : option Z * option Z) :
  job_queue_key_cmp k1 k2 <> Gt -> job_queue_key_cmp k2 k3 <> Gt ->
  job_queue_key_cmp k1 k3 <> Gt.
Proof.
  destruct k1 as [[a1|] [b1|]], k2 as [[a2|] [b2|]], k3 as [[a3|] [b3|]];
    unfold job_queue_key_cmp, desc_nulls_last, desc_nulls_first; simpl;
    zcmp; simpl; intros; try discriminate; try congruence; lia.
Qed.

Global Instance job_queue_key_le_trans : Transitive job_queue_key_le.
Proof. intros k1 k2 k3. apply job_queue_key_cmp_trans. Qed.

Global Instance job_queue_key_le_antisymm : AntiSymm (=) job_queue_key_le.
Proof.
  intros k1 k2 H1 H2. apply job_queue_key_cmp_eq.
  unfold job_queue_key_le in *. rewrite job_queue_key_cmp_antisym in H2.
  destruct (job_queue_key_cmp k1 k2); simpl in *; congruence.
Qed.

Global Instance job_queue_le_trans : Transitive job_queue_le.
Proof. intros x y z. unfold job_queue_le. apply job_queue_key_le_trans. Qed.

Global Instance job_queue_le_total : Total job_queue_le.
Proof.
  intros x y. unfold job_queue_le, job_queue_key_le.
  rewrite (job_queue_key_cmp_antisym (job_queue_key x)).
  destruct (job_queue_key_cmp (job_queue_key x) (job_queue_key y));
    simpl; [left|left|right]; discriminate.
Qed.

Lemma job_queue_is_result (now : Z) (db : list discovered_job) :
  job_queue_result now db (job_queue now db).
Proof.
  split.
  - apply merge_sort_Permutation.
  - apply Sorted_merge_sort, _.
Qed.

Lemma job_queue_result_keys (now : Z) (db r1 r2 : list discovered_job) :
  job_queue_result now db r1 -> job_queue_result now db r2 ->
  job_queue_key <$> r1 = job_queue_key <$> r2.
Proof.
  intros [P1 S1] [P2 S2].
  apply (Sorted_unique job_queue_key_le).
  - apply (Sorted_fmap _ job_queue_le); auto.
  - apply (Sorted_fmap _ job_queue_le); auto.
  - apply fmap_Permutation. by rewrite P1, P2.
Qed.

Lemma job_queue_result_elem (now : Z) (db r : list discovered_job) (j : discovered_job) :
  job_queue_result now db r -> j ∈ r <-> j ∈ db /\ job_queue_where now j = true.
Proof.
  intros [P _]. rewrite P, !list_elem_of_In, List.filter_In. tauto.
Qed.

(** ** Claim C2 (amended) *)

(** C2: the [job_queue] view (listEligible) returns exactly the WorkItems
    with status in {discovered, scored, queued} whose [expires_at] is null
    or later than now, ordered by score descending with null scores last
    and then by [discovered_at] descending (null first); every legal
    answer has the same sequence of (score, discovered_at) keys, so the
    order is determined except among rows that agree on both keys; and
    A(0.9, t1), B(0.9, t2 > t1), C(0.7) come out as [B; A; C]. *)
Theorem job_queue_listEligible :
  (forall (now : Z) (db : list discovered_job),
     job_queue_result now db (job_queue now db) /\
     forall r, job_queue_result now db r ->
       (forall j, j ∈ r <-> j ∈ db /\ job_queue_where now j = true) /\
       Sorted job_queue_le r /\
       job_queue_key <$> r = job_queue_key <$> job_queue now db) /\
  (forall (now t1 t2 : Z) (A B C : discovered_job),
     j_score A = Some 9000 -> j_score B = Some 9000 -> j_score C = Some 7000 ->
     j_discovered_at A = Some t1 -> j_discovered_at B = Some t2 -> t1 < t2 ->
     job_queue_where now A = true -> job_queue_where now B = true ->
     job_queue_where now C = true ->
     forall r, job_queue_result now [A; B; C] r -> r = [B; A; C]).
Proof.
  split.
  - intros now db. split; [apply job_queue_is_result|].
    intros r Hr. split; [|split].
    + intros j. by apply job_queue_result_elem.
    + apply Hr.
    + apply (job_queue_result_keys now db); [exact Hr|apply job_queue_is_result].
  - intros now t1 t2 A B C HsA HsB HsC HdA HdB Ht HwA HwB HwC r [P S].
    assert (Hkey : forall x y, x ∈ [A; B; C] -> y ∈ [A; B; C] ->
              job_queue_key x = job_queue_key y -> x = y).
    { intros x y Hx Hy Hk. unfold job_queue_key in Hk.
      rewrite !list_elem_of_In in Hx, Hy. simpl in Hx, Hy.
      destruct Hx as [<-|[<-|[<-|[]]]], Hy as [<-|[<-|[<-|[]]]];
        auto; injection Hk; congruence || (rewrite ?HsA, ?HsB, ?HsC, ?HdA, ?HdB;
        intros; simplify_eq; lia). }
    assert (Pf : List.filter (job_queue_where now) [A; B; C] = [A; B; C]).
    { simpl. by rewrite HwA, HwB, HwC. }
    rewrite Pf in P.
    apply (Sorted_unique_strong job_queue_le).
    + intros x1 x2 H1 H2 L1 L2. apply Hkey.
      * by rewrite <-P.
      * rewrite !list_elem_of_In in H2 |- *. simpl in *. tauto.
      * by apply (anti_symm job_queue_key_le).
    + exact S.
    + repeat constructor; unfold job_queue_le, job_queue_key_le, job_queue_key,
        job_queue_key_cmp, desc_nulls_last, desc_nulls_first;
        simpl; rewrite ?HsA, ?HsB, ?HsC, ?HdA, ?HdB; simpl; zcmp; simpl; try lia;
        discriminate.
    + rewrite P. apply Permutation_swap.
Qed.

(** C2 counterexample: two WorkItems with equal score and equal
    [discovered_at]; the view admits both orders for the same table. *)
Lemma job_queue_tie_order_unspecified :
  let X := {| j_id := 1; j_platform := "upwork"; j_platform_job_id := "a";
              j_budget_min := None; j_budget_max := None; j_skills_required := [];
              j_score := Some 9000; j_status := js_scored; j_assigned_agent_id := None;
              j_discovered_at := Some 100; j_expires_at := None |} in
  let Y := {| j_id := 2; j_platform := "upwork"; j_platform_job_id := "b";
              j_budget_min := None; j_budget_max := None; j_skills_required := [];
              j_score := Some 9000; j_status := js_scored; j_assigned_agent_id := None;
              j_discovered_at := Some 100; j_expires_at := None |} in
  job_queue_result 0 [X; Y] [X; Y] /\ job_queue_result 0 [X; Y] [Y; X] /\
  [X; Y] <> [Y; X].
Proof.
  intros X Y.
  assert (HXY : job_queue_le X Y /\ job_queue_le Y X).
  { split; vm_compute; discriminate. }
  split; [|split].
  - split; [reflexivity|]. repeat constructor. apply HXY.
  - split; [apply Permutation_swap|]. repeat constructor. apply HXY.
  - discriminate.
Qed.

(** ** Claim C4 *)

(** C4: an UPDATE of a Contract row writes the row and, in the same
    resulting store, updates the owning Worker: completed (from a status
    other than completed) adds exactly one to [jobs_completed] and sets
    [last_active_at] to the statement time; cancelled or disputed from
    in_progress adds exactly one to [jobs_failed]; any other update
    changes no Worker; no other Worker is touched. *)
Theorem update_agent_stats_on_job_complete_spec (now i : Z)
    (f : active_job -> active_job) (st : store) (old : active_job)
    (Hold : st_active_jobs st !! i = Some old) :
  let new := f old in
  let st' := update_active_job now i f st in
  let w := aj_agent_id new in
  st_active_jobs st' !! i = Some new /\
  (aj_status new = js_completed -> aj_status old <> js_completed ->
   forall a, st_agents st !! w = Some a ->
   exists a', st_agents st' !! w = Some a' /\
     a_jobs_completed a' = a_jobs_completed a + 1 /\
     a_jobs_failed a' = a_jobs_failed a /\
     a_last_active_at a' = Some now) /\
  (aj_status new ∈ [js_cancelled; js_disputed] -> aj_status old = js_in_progress ->
   forall a, st_agents st !! w = Some a ->
   exists a', st_agents st' !! w = Some a' /\
     a_jobs_completed a' = a_jobs_completed a /\
     a_jobs_failed a' = a_jobs_failed a + 1) /\
  (~ (aj_status new = js_completed /\ aj_status old <> js_completed) ->
   ~ (aj_status new ∈ [js_cancelled; js_disputed] /\ aj_status old = js_in_progress) ->
   st_agents st' = st_agents st) /\
  (forall w', w' <> w -> st_agents st' !! w' = st_agents st !! w').
Proof.
  intros new st' w. unfold st', update_active_job. rewrite Hold. simpl.
  unfold update_agent_stats_on_job_complete, status_in. fold new w.
  split; [by rewrite lookup_insert_eq|].
  split; [|split; [|split]].
  - intros Hn Ho a Ha.
    rewrite (bool_decide_eq_true_2 _ Hn), (bool_decide_eq_false_2 _ Ho). simpl.
    exists (bump_completed now a). rewrite lookup_alter_eq, Ha. simpl. auto.
  - intros Hn Ho a Ha.
    assert (aj_status new <> js_completed) as Hnc.
    { intros E. rewrite E in Hn. rewrite list_elem_of_In in Hn.
      simpl in Hn. intuition discriminate. }
    rewrite (bool_decide_eq_false_2 _ Hnc), (bool_decide_eq_true_2 _ Hn),
      (bool_decide_eq_true_2 _ Ho). simpl.
    exists (bump_failed a). rewrite lookup_alter_eq, Ha. simpl. auto.
  - intros H1 H2.
    destruct (bool_decide_reflect (aj_status new = js_completed)) as [Hn|Hn];
    destruct (bool_decide_reflect (aj_status old = js_completed)) as [Ho|Ho];
    destruct (bool_decide_reflect (aj_status new ∈ [js_cancelled; js_disputed])) as [Hc|Hc];
    destruct (bool_decide_reflect (aj_status old = js_in_progress)) as [Hp|Hp];
    simpl; tauto.
  - intros w' Hw'.
    destruct (_ && _); [by rewrite lookup_alter_ne|].
    destruct (_ && _); [by rewrite lookup_alter_ne|done].
Qed.

(** ** Rate limiter *)

Lemma checkAndIncrement_step (sT sI lT : string) (L W t : Z) (st : store) :
  let k := (sT, sI, lT, window_start t W) in
  let c := default 0 (st_rate_limit_counters st !! k) in
  atomically (checkAndIncrement sT sI lT L W t) st =
  if Z.ltb c L
  then (inr (L - (c + 1)), set_rate_limit_counters (<[k := c + 1]> (st_rate_limit_counters st)) st)
  else (inl RateLimitExceeded, st).
Proof.
  intros k c. unfold atomically, checkAndIncrement, tx_bind, tx_get, tx_put, tx_ret, tx_fail.
  fold k c. by destruct (Z.ltb c L).
Qed.

Lemma run_checks_window (sT sI lT : string) (L W ws : Z) (times : list Z) :
  forall (st : store) (c : Z),
  (forall t, t ∈ times -> window_start t W = ws) ->
  default 0 (st_rate_limit_counters st !! (sT, sI, lT, ws)) = c ->
  let '(rs, st') := run_checks sT sI lT L W times st in
  length rs = length times /\
  (forall (n : nat) r, rs !! n = Some r ->
     r = if Z.ltb (c + Z.of_nat n) L then inr (L - (c + Z.of_nat n + 1))
         else inl RateLimitExceeded) /\
  default 0 (st_rate_limit_counters st' !! (sT, sI, lT, ws)) =
    (if Z.ltb c L then Z.min (c + Z.of_nat (length times)) L else c) /\
  (forall k', k' <> (sT, sI, lT, ws) ->
     st_rate_limit_counters st' !! k' = st_rate_limit_counters st !! k').
Proof.
  induction times as [|t ts IH]; intros st c Hin Hc.
  - simpl. split; [done|split; [intros n r Hn; by rewrite lookup_nil in Hn|split; [|done]]].
    rewrite Hc. destruct (Z.ltb_spec c L); lia.
  - simpl. rewrite checkAndIncrement_step.
    rewrite (Hin t) by (left). rewrite Hc.
    destruct (Z.ltb_spec c L) as [Hlt|Hge].
    + specialize (IH (set_rate_limit_counters
                        (<[(sT, sI, lT, ws) := c + 1]> (st_rate_limit_counters st)) st) (c + 1)).
      destruct (run_checks _ _ _ _ _ ts _) as [rs st2] eqn:E.
      destruct IH as (Hlen & Hrs & Hcnt & Hoth).
      { intros t' Ht'. apply Hin. by right. }
      { simpl. by rewrite lookup_insert_eq. }
      split; [simpl; by rewrite Hlen|split; [|split]].
      * intros [|n] r Hn; simpl in Hn.
        -- injection Hn as <-. simpl Z.of_nat. rewrite Z.add_0_r.
           destruct (Z.ltb_spec c L); [done|lia].
        -- rewrite (Hrs n r Hn).
           replace (c + 1 + Z.of_nat n) with (c + Z.of_nat (S n)) by lia. done.
      * rewrite Hcnt. simpl length.
        destruct (Z.ltb_spec (c + 1) L); lia.
      * intros k' Hk'. rewrite Hoth by done. simpl. by rewrite lookup_insert_ne by congruence.
    + specialize (IH st c).
      destruct (run_checks _ _ _ _ _ ts _) as [rs st2] eqn:E.
      destruct IH as (Hlen & Hrs & Hcnt & Hoth).
      { intros t' Ht'. apply Hin. by right. }
      { done. }
      split; [simpl; by rewrite Hlen|split; [|split]].
      * intros [|n] r Hn; simpl in Hn.
        -- injection Hn as <-. simpl Z.of_nat. rewrite Z.add_0_r.
           destruct (Z.ltb_spec c L); [lia|done].
        -- rewrite (Hrs n r Hn).
           destruct (Z.ltb_spec (c + Z.of_nat n) L); destruct (Z.ltb_spec (c + Z.of_nat (S n)) L);
             done || lia.
      * rewrite Hcnt. destruct (Z.ltb_spec c L); lia.
      * exact Hoth.
Qed.

(** ** Claim C5 *)

(** C5: for a key whose window counter does not exist yet, the n-th call
    (from 0) of [checkAndIncrement] within that window succeeds exactly
    when n < L, with L - (n + 1) calls remaining; every later call returns
    [RateLimitExceeded] and leaves the counter at L (the counter ends at
    min(calls, L)); the first call of another window whose counter does
    not exist yet succeeds again (for L > 0).  With L = 3 and W = 60 s,
    calls at 0, 10, 20 s succeed, the call at 30 s is refused and the
    call at 61 s succeeds. *)
Theorem checkAndIncrement_fixed_window :
  (forall (sT sI lT : string) (L W ws : Z) (times : list Z) (st : store),
     (forall t, t ∈ times -> window_start t W = ws) ->
     st_rate_limit_counters st !! (sT, sI, lT, ws) = None ->
     let '(rs, st') := run_checks sT sI lT L W times st in
     length rs = length times /\
     (forall (n : nat) r, rs !! n = Some r ->
        (Z.of_nat n < L -> r = inr (L - (Z.of_nat n + 1))) /\
        (L <= Z.of_nat n -> r = inl RateLimitExceeded)) /\
     default 0 (st_rate_limit_counters st' !! (sT, sI, lT, ws)) =
       Z.min (Z.of_nat (length times)) (Z.max L 0) /\
     (forall t, window_start t W <> ws ->
        st_rate_limit_counters st !! (sT, sI, lT, window_start t W) = None ->
        0 < L ->
        (atomically (checkAndIncrement sT sI lT L W t) st').1 = inr (L - 1))) /\
  (run_checks "agent" "agent-1" "proposals" 3 60 [0; 10; 20; 30; 61] empty_store).1
    = [inr 2; inr 1; inr 0; inl RateLimitExceeded; inr 2].
Proof.
  split; [|reflexivity].
  intros sT sI lT L W ws times st Hin Hfresh.
  pose proof (run_checks_window sT sI lT L W ws times st 0 Hin) as H.
  rewrite Hfresh in H. specialize (H eq_refl).
  destruct (run_checks _ _ _ _ _ times st) as [rs st'].
  destruct H as (Hlen & Hrs & Hcnt & Hoth).
  split; [done|split; [|split]].
  - intros n r Hn. rewrite (Hrs n r Hn).
    destruct (Z.ltb_spec (0 + Z.of_nat n) L); split; intros; (f_equal; lia) || lia || done.
  - rewrite Hcnt. destruct (Z.ltb_spec 0 L); lia.
  - intros t Ht Hnone HL. rewrite checkAndIncrement_step. simpl.
    rewrite Hoth by congruence. rewrite Hnone. simpl.
    destruct (Z.ltb_spec 0 L); [simpl; f_equal; lia|lia].
Qed.

(** ** Claim C6 *)

Ltac unfold_tx :=
  cbv beta iota zeta delta [atomically tx_bind tx_get tx_put tx_ret tx_fail
                            tx_guard tx_lookup].

(** C6: a progress update is accepted only while the Contract is
    in_progress; a value lower than the current progress is refused with
    [RegressionNotAllowed] and changes nothing, unless submitted as a
    revision, which increments [revision_count]; a revision that would
    take [revision_count] past [max_revisions] is refused with
    [RevisionLimitExceeded] and changes nothing.  Concretely, a Contract
    at 50% refuses 40% with [RegressionNotAllowed], and with
    [max_revisions = 3] the fourth revision fails. *)
Theorem updateProgress_spec :
  (forall (now cid v : Z) (rev : bool) (st : store) (c : active_job),
     st_active_jobs st !! cid = Some c ->
     let '(res, st') := atomically (updateProgress now cid v rev) st in
     (aj_status c <> js_in_progress -> res = inl InvalidTransition /\ st' = st) /\
     (aj_status c = js_in_progress -> rev = false -> v < aj_progress_percentage c ->
        res = inl RegressionNotAllowed /\ st' = st) /\
     (aj_status c = js_in_progress -> rev = false -> aj_progress_percentage c <= v ->
        res = inr tt /\
        st_active_jobs st' !! cid = Some (with_progress v false c) /\
        aj_revision_count (with_progress v false c) = aj_revision_count c) /\
     (aj_status c = js_in_progress -> rev = true ->
        aj_revision_count c + 1 <= aj_max_revisions c ->
        res = inr tt /\
        st_active_jobs st' !! cid = Some (with_progress v true c) /\
        aj_progress_percentage (with_progress v true c) = v /\
        aj_revision_count (with_progress v true c) = aj_revision_count c + 1) /\
     (aj_status c = js_in_progress -> rev = true ->
        aj_max_revisions c < aj_revision_count c + 1 ->
        res = inl RevisionLimitExceeded /\ st' = st)) /\
  (let p := {| p_id := 7; p_job_id := 3; p_agent_id := 5; p_bid_amount := 50000;
               p_status := ps_accepted |} in
   let c0 := with_progress 5000 false (contract_of 1 7 p) in
   let st0 := insert_active_job c0 empty_store in
   let '(r0, _) := atomically (updateProgress 0 1 4000 false) st0 in
   let '(r1, st1) := atomically (updateProgress 0 1 4000 true) st0 in
   let '(r2, st2) := atomically (updateProgress 0 1 3000 true) st1 in
   let '(r3, st3) := atomically (updateProgress 0 1 2000 true) st2 in
   let '(r4, _) := atomically (updateProgress 0 1 1000 true) st3 in
   r0 = inl RegressionNotAllowed /\ r1 = inr tt /\ r2 = inr tt /\ r3 = inr tt /\
   r4 = inl RevisionLimitExceeded).
Proof.
  split; [|vm_compute; repeat split].
  intros now cid v rev st c Hc.
  unfold updateProgress. unfold_tx. rewrite Hc. unfold_tx. cbv beta iota.
  assert (Hup : forall b, st_active_jobs (update_active_job now cid (with_progress v b) st) !! cid
                          = Some (with_progress v b c)).
  { intros b. unfold update_active_job. rewrite Hc. simpl. by rewrite lookup_insert_eq. }
  destruct (bool_decide_reflect (aj_status c = js_in_progress)) as [Hs|Hs];
    [destruct rev;
       [destruct (Z.leb_spec (aj_revision_count c + 1) (aj_max_revisions c))
       |destruct (Z.leb_spec (aj_progress_percentage c) v)]|];
    cbv beta iota; repeat split; intros;
    try rewrite Hup; try done; try lia; try congruence.
Qed.

(** ** Claim C8 *)

(** C8: [recordEarning] creates a LedgerEntry whose net amount is
    gross - platform fee - processing fee, appended to the earnings; when
    that difference is negative it fails with [InvalidLedgerAmount] and
    the store, hence the ledger, is unchanged. *)
Theorem recordEarning_net_amount (now cid g pf pr : Z) (cur : string) (st : store) :
  let '(res, st') := atomically (recordEarning now cid g pf pr cur) st in
  (g - pf - pr < 0 -> res = inl InvalidLedgerAmount /\ st' = st) /\
  (forall e, res = inr e ->
     e_net_amount e = g - pf - pr /\ e_gross_amount e = g /\
     e_platform_fee e = pf /\ e_processing_fee e = pr /\
     e_active_job_id e = Some cid /\ st_earnings st' = st_earnings st ++ [e]).
Proof.
  unfold recordEarning. unfold_tx.
  destruct (Z.leb_spec 0 (g - pf - pr)) as [Hn|Hn]; unfold_tx.
  - destruct (st_active_jobs st !! cid) as [c|]; unfold_tx;
      [|split; [intros; lia|discriminate]].
    destruct (st_discovered_jobs st !! aj_discovered_job_id c) as [j|]; unfold_tx;
      [|split; [intros; lia|discriminate]].
    split; [intros; lia|]. intros e He. injection He as <-. simpl. auto 10.
  - split; [done|discriminate].
Qed.

(** ** Claim C7 *)

Definition ledger_signed (x : ledger_entry) : Z :=
  match x with LEarning e => e_net_amount e | LCost c => - c_total_amount c end.

Lemma fold_replay (l : list ledger_entry) (acc : Z) :
  fold_left replay_step l acc = acc + fold_right Z.add 0 (List.map ledger_signed l).
Proof.
  revert acc. induction l as [|[e|c] l IH]; intros acc; simpl; [lia| |];
    rewrite IH; lia.
Qed.

Lemma sum_Permutation (l1 l2 : list Z) :
  l1 ≡ₚ l2 -> fold_right Z.add 0 l1 = fold_right Z.add 0 l2.
Proof. induction 1; simpl; lia. Qed.

Lemma replay_net_profit_sum (st : store) (w : Z) :
  replay_net_profit st w =
  fold_right Z.add 0
    (List.map e_net_amount (List.filter (fun e => bool_decide (e_agent_id e = w)) (st_earnings st)))
  - fold_right Z.add 0 (agent_costs w (st_costs st)).
Proof.
  unfold replay_net_profit, ledger_stream. rewrite fold_replay.
  rewrite (sum_Permutation _ (List.map ledger_signed (List.filter (ledger_owned_by w)
     (List.map LEarning (st_earnings st) ++ List.map LCost (st_costs st))))).
  2: { apply Permutation_map, merge_sort_Permutation. }
  unfold agent_costs. simpl.
  induction (st_earnings st) as [|e es IH]; simpl.
  - induction (st_costs st) as [|c cs IHc]; simpl; [done|].
    destruct (bool_decide (c_agent_id c = Some w)); simpl; lia.
  - destruct (bool_decide (e_agent_id e = w)); simpl; lia.
Qed.

Lemma coalesce_sql_sum (l : list Z) : coalesce (sql_sum l) 0 = fold_right Z.add 0 l.
Proof. by destruct l. Qed.

Lemma sum_app (l1 l2 : list Z) :
  fold_right Z.add 0 (l1 ++ l2) = fold_right Z.add 0 l1 + fold_right Z.add 0 l2.
Proof. induction l1; simpl; lia. Qed.

Lemma run_ledger_call_inv (st : store) (call : ledger_call) :
  agents_keyed st -> earnings_cached st ->
  agents_keyed (run_ledger_call st call) /\ earnings_cached (run_ledger_call st call).
Proof.
  intros Hk Hc. destruct call as [now cid g pf pr cur|now [w0|cid] cat amt cur]; simpl.
  - unfold recordEarning. unfold_tx.
    destruct (Z.leb_spec 0 (g - pf - pr)); unfold_tx; [|done].
    destruct (st_active_jobs st !! cid) as [c|]; unfold_tx; [|done].
    destruct (st_discovered_jobs st !! aj_discovered_job_id c) as [j|]; unfold_tx; [|done].
    simpl. split.
    + intros w a Ha. simpl in Ha.
      apply lookup_alter_Some in Ha as [(<- & a0 & Ha0 & ->)|(_ & Ha)].
      * simpl. by apply Hk.
      * by apply Hk.
    + intros w a Ha. simpl in Ha |- *. rewrite List.filter_app, List.map_app, sum_app. simpl.
      apply lookup_alter_Some in Ha as [(<- & a0 & Ha0 & ->)|(Hne & Ha)].
      * simpl. rewrite (Hc _ _ Ha0), bool_decide_eq_true_2 by done. simpl. lia.
      * rewrite (Hc _ _ Ha), bool_decide_eq_false_2 by congruence. simpl. lia.
  - unfold recordCost. unfold_tx.
    destruct (st_agents st !! w0); unfold_tx; [|done]. split; [apply Hk|apply Hc].
  - unfold recordCost. unfold_tx.
    destruct (st_active_jobs st !! cid); unfold_tx; [|done]. split; [apply Hk|apply Hc].
Qed.

Lemma run_ledger_calls_inv (calls : list ledger_call) :
  forall st, agents_keyed st -> earnings_cached st ->
  agents_keyed (run_ledger_calls st calls) /\ earnings_cached (run_ledger_calls st calls).
Proof.
  induction calls as [|call calls IH]; intros st Hk Hc; simpl; [done|].
  destruct (run_ledger_call_inv st call Hk Hc). by apply IH.
Qed.

(** C7: after any finite interleaving of [recordEarning] and
    [recordCost] calls, starting from a store whose cached
    [total_earnings] agree with the earnings ledger, the [net_profit] that
    [agent_performance_summary] shows for a Worker equals the value
    obtained by replaying that Worker's LedgerEntries in timestamp order,
    and is [total_earnings] minus the sum of the Worker's costs (0 when
    there are none); every non-deleted Worker has a row. *)
Theorem agent_performance_summary_net_profit_replay (st0 : store) (calls : list ledger_call)
    (Hk : agents_keyed st0) (Hc : earnings_cached st0) :
  let st := run_ledger_calls st0 calls in
  (forall w row, agent_performance_summary st !! w = Some row ->
     ps_net_profit row = replay_net_profit st w /\
     ps_net_profit row = ps_total_earnings row - coalesce (ps_total_costs row) 0) /\
  (forall w a, st_agents st !! w = Some a -> a_is_deleted a = false ->
     exists row, agent_performance_summary st !! w = Some row).
Proof.
  intros st. destruct (run_ledger_calls_inv calls st0 Hk Hc) as [Hk' Hc'].
  fold st in Hk', Hc'.
  split.
  - intros w row Hrow. unfold agent_performance_summary in Hrow.
    rewrite lookup_omap in Hrow.
    destruct (st_agents st !! w) as [a|] eqn:Ha; simpl in Hrow; [|done].
    destruct (a_is_deleted a); [done|]. injection Hrow as <-. simpl.
    rewrite (Hk' _ _ Ha), replay_net_profit_sum, coalesce_sql_sum, (Hc' _ _ Ha).
    split; [done|lia].
  - intros w a Ha Hd. unfold agent_performance_summary.
    rewrite lookup_omap, Ha. simpl. rewrite Hd. eauto.
Qed.

(** ** Claim C10 *)

Lemma filter_filter_andb {A} (p q : A -> bool) (l : list A) :
  List.filter p (List.filter q l) = List.filter (fun x => q x && p x) l.
Proof.
  induction l as [|x l IH]; simpl; [done|].
  destruct (q x); simpl; [destruct (p x); simpl|]; by rewrite IH.
Qed.

(** C10: [daily_earnings_report] reads only earnings whose status is
    completed: removing (or adding) an earning in any other status
    changes no row, every row of the report comes from at least one
    completed earning, and its count and sums range exactly over the
    completed earnings of its (date, platform) group. *)
Theorem daily_earnings_report_completed_only :
  (forall (l1 l2 : list earning) (e : earning), e_status e <> pay_completed ->
     daily_earnings_report (l1 ++ e :: l2) = daily_earnings_report (l1 ++ l2)) /\
  (forall (l : list earning) (row : report_row), row ∈ daily_earnings_report l ->
     let g := List.filter (fun e => report_where e &&
                 bool_decide (report_key e = (r_date row, r_platform row))) l in
     (r_transaction_count row > 0)%nat /\
     r_transaction_count row = length g /\
     r_gross_earnings row = fold_right Z.add 0 (List.map e_gross_amount g) /\
     r_platform_fees row = fold_right Z.add 0 (List.map e_platform_fee g) /\
     r_net_earnings row = fold_right Z.add 0 (List.map e_net_amount g)).
Proof.
  split.
  - intros l1 l2 e He. unfold daily_earnings_report.
    assert (Hw : report_where e = false)
      by (unfold report_where; by apply bool_decide_eq_false_2).
    rewrite !List.filter_app. simpl. by rewrite Hw.
  - intros l row Hrow. unfold daily_earnings_report in Hrow.
    rewrite list_elem_of_In, List.in_map_iff in Hrow.
    destruct Hrow as [k [<- Hk]].
    rewrite <-list_elem_of_In, (merge_sort_Permutation report_key_le), elem_of_remove_dups,
      list_elem_of_In, List.in_map_iff in Hk.
    destruct Hk as [e0 [Hke0 He0]].
    destruct k as [d p]. unfold report_group. simpl.
    rewrite filter_filter_andb.
    split; [|done].
    apply List.filter_In in He0 as [He0 Hw0].
    assert (Hin : In e0 (List.filter (fun x => report_where x &&
                    bool_decide (report_key x = (d, p))) l)).
    { apply List.filter_In. split; [done|]. rewrite Hw0, Hke0. simpl.
      by apply bool_decide_eq_true_2. }
    destruct (List.filter _ l); [done|simpl; lia].
Qed.

(** ** Claim C1 *)

(** C1: accepting a Proposal is all-or-nothing.  On success the Proposal
    is accepted, (a) every other non-terminal Proposal of its WorkItem is
    rejected and every other Proposal is left as it was, (b) exactly one
    Contract row, under a key that was free, is added, referencing the
    Proposal's WorkItem and Worker, and (c) the WorkItem is [won].  On
    any failure the store is the one the call started from. *)
Theorem accept_proposal_all_or_nothing (pid : Z) (st : store) :
  match atomically (accept_proposal pid) st with
  | (inl _, st') => st' = st
  | (inr cid, st') =>
      exists p, st_proposals st !! pid = Some p /\
      p_status <$> st_proposals st' !! pid = Some ps_accepted /\
      (forall i q, i <> pid -> st_proposals st !! i = Some q ->
         p_job_id q = p_job_id p -> proposal_terminal (p_status q) = false ->
         p_status <$> st_proposals st' !! i = Some ps_rejected) /\
      (forall i q, i <> pid -> st_proposals st !! i = Some q ->
         (p_job_id q <> p_job_id p \/ proposal_terminal (p_status q) = true) ->
         st_proposals st' !! i = Some q) /\
      st_active_jobs st !! cid = None /\
      (exists c, st_active_jobs st' = <[cid := c]> (st_active_jobs st) /\
         aj_discovered_job_id c = p_job_id p /\ aj_agent_id c = p_agent_id p /\
         aj_proposal_id c = Some pid) /\
      j_status <$> st_discovered_jobs st' !! p_job_id p = Some js_won
  end.
Proof.
  unfold accept_proposal. unfold_tx.
  destruct (st_proposals st !! pid) as [p|] eqn:Hp; unfold_tx; [|done].
  destruct (proposal_terminal (p_status p)) eqn:Ht; unfold_tx; simpl; [done|].
  destruct (st_discovered_jobs st !! p_job_id p) as [j|] eqn:Hj; unfold_tx; simpl; [|done].
  destruct (job_transition_legal (j_status j) js_won); unfold_tx; simpl; [|done].
  destruct (bool_decide_reflect (st_active_jobs st !! st_next_id st = None)) as [Hfree|Hfree];
    unfold_tx; simpl; [|done].
  exists p. simpl. split; [done|].
  unfold accept_and_reject_siblings.
  split; [|split; [|split; [|split; [|split]]]].
  - rewrite map_lookup_imap, Hp. simpl. by rewrite bool_decide_eq_true_2.
  - intros i q Hi Hq Hjq Htq. rewrite map_lookup_imap, Hq. simpl.
    rewrite bool_decide_eq_false_2 by done. rewrite bool_decide_eq_true_2 by done.
    by rewrite Htq.
  - intros i q Hi Hq Hor. rewrite map_lookup_imap, Hq. simpl.
    rewrite bool_decide_eq_false_2 by done.
    destruct Hor as [Hne|Htq].
    + by rewrite bool_decide_eq_false_2.
    + by rewrite Htq, andb_false_r.
  - done.
  - eexists. split; [reflexivity|]. simpl. auto.
  - by rewrite lookup_insert_eq.
Qed.

(** ** Claim C3 *)

Lemma find_job_by_key_Some (k : string * string) (m : gmap Z discovered_job) i j :
  find_job_by_key k m = Some (i, j) -> m !! i = Some j /\ job_key j = k.
Proof.
  unfold find_job_by_key. intros H.
  destruct (list_find _ _) as [[n [i' j']]|] eqn:E; simplify_eq/=.
  apply list_find_Some in E as (Hn & Hk & _).
  split; [|done]. apply elem_of_map_to_list.
  by eapply list_elem_of_lookup_2.
Qed.

Lemma find_job_by_key_None (k : string * string) (m : gmap Z discovered_job) :
  find_job_by_key k m = None -> forall i j, m !! i = Some j -> job_key j <> k.
Proof.
  unfold find_job_by_key. intros H i j Hij.
  destruct (list_find _ _) eqn:E; simplify_eq/=.
  apply list_find_None in E. rewrite Forall_forall in E.
  apply (E (i, j)). by apply elem_of_map_to_list.
Qed.

Lemma unique_insert_same_key (m : gmap Z discovered_job) i j j' :
  m !! i = Some j -> job_key j' = job_key j -> unique_job_keys m ->
  unique_job_keys (<[i := j']> m).
Proof.
  intros Hi Hk Hu i1 i2 j1 j2 H1 H2 Hk12.
  rewrite lookup_insert in H1, H2.
  destruct (decide (i = i1)) as [<-|N1], (decide (i = i2)) as [<-|N2].
  - done.
  - injection H1 as <-. apply (Hu i i2 j j2 Hi H2). congruence.
  - injection H2 as <-. apply (Hu i1 i j1 j H1 Hi). congruence.
  - by apply (Hu i1 i2 j1 j2).
Qed.

Lemma unique_insert_fresh (m : gmap Z discovered_job) i j' :
  m !! i = None -> (forall i0 j0, m !! i0 = Some j0 -> job_key j0 <> job_key j') ->
  unique_job_keys m -> unique_job_keys (<[i := j']> m).
Proof.
  intros Hi Hk Hu i1 i2 j1 j2 H1 H2 Hk12.
  rewrite lookup_insert in H1, H2.
  destruct (decide (i = i1)) as [<-|N1], (decide (i = i2)) as [<-|N2].
  - done.
  - injection H1 as <-. exfalso. apply (Hk i2 j2 H2). congruence.
  - injection H2 as <-. exfalso. by apply (Hk i1 j1 H1).
  - by apply (Hu i1 i2 j1 j2).
Qed.

Lemma job_won_key (w : Z) (j : discovered_job) : job_key (job_won w j) = job_key j.
Proof. done. Qed.

Lemma merge_job_key (pl : ingest_payload) (j : discovered_job) :
  job_key (merge_job pl j) = job_key j.
Proof. done. Qed.

Lemma accept_proposal_unique_job_keys (pid : Z) (st : store) :
  unique_job_keys (st_discovered_jobs st) ->
  unique_job_keys (st_discovered_jobs (atomically (accept_proposal pid) st).2).
Proof.
  intros Hu. unfold accept_proposal. unfold_tx.
  destruct (st_proposals st !! pid) as [p|] eqn:Hp; unfold_tx; [|done].
  destruct (proposal_terminal (p_status p)) eqn:Ht; unfold_tx; simpl; [done|].
  destruct (st_discovered_jobs st !! p_job_id p) as [j|] eqn:Hj; unfold_tx; simpl; [|done].
  destruct (job_transition_legal (j_status j) js_won); unfold_tx; simpl; [|done].
  destruct (bool_decide_reflect (st_active_jobs st !! st_next_id st = None)) as [Hfree|Hfree];
    unfold_tx; simpl; [|done].
  eapply unique_insert_same_key; [exact Hj|apply job_won_key|exact Hu].
Qed.

(** C3: the pair (platform, platform_job_id) identifies at most one row of
    [discovered_jobs]: ingest and the accept cascade preserve uniqueness of
    the key.  Ingesting a key that is already present returns [Updated],
    creates no row (the set of ids is unchanged) and either rewrites that
    same row with the merged fields or, when the payload's source timestamp
    is older than the stored [discovered_at], leaves the table unchanged. *)
Theorem ingest_dedup_no_regression :
  (forall (platform pjid : string) (pl : ingest_payload) (st : store),
     unique_job_keys (st_discovered_jobs st) ->
     let '(res, st') := atomically (ingest platform pjid pl) st in
     unique_job_keys (st_discovered_jobs st') /\
     forall i j, st_discovered_jobs st !! i = Some j -> job_key j = (platform, pjid) ->
       res = inr Updated /\
       (forall i', is_Some (st_discovered_jobs st' !! i') <->
                   is_Some (st_discovered_jobs st !! i')) /\
       st_discovered_jobs st' =
         (if ingest_stale (j_discovered_at j) (pl_discovered_at pl)
          then st_discovered_jobs st
          else <[i := merge_job pl j]> (st_discovered_jobs st))) /\
  (forall (pid : Z) (st : store),
     unique_job_keys (st_discovered_jobs st) ->
     unique_job_keys (st_discovered_jobs (atomically (accept_proposal pid) st).2)).
Proof.
  split; [|exact accept_proposal_unique_job_keys].
  intros platform pjid pl st Hu. unfold ingest. unfold_tx.
  destruct (find_job_by_key (platform, pjid) (st_discovered_jobs st)) as [[i0 j0]|] eqn:Hf.
  - apply find_job_by_key_Some in Hf as [Hi0 Hk0].
    assert (Hsame : forall i j, st_discovered_jobs st !! i = Some j ->
                      job_key j = (platform, pjid) -> i = i0 /\ j = j0).
    { intros i j Hi Hk. assert (i = i0) as -> by (apply (Hu i i0 j j0); congruence).
      split; congruence. }
    destruct (ingest_stale (j_discovered_at j0) (pl_discovered_at pl)) eqn:Hs;
      unfold_tx; simpl.
    + split; [done|]. intros i j Hi Hk. destruct (Hsame i j Hi Hk) as [-> ->].
      by rewrite Hs.
    + split.
      * eapply unique_insert_same_key; [exact Hi0|apply merge_job_key|exact Hu].
      * intros i j Hi Hk. destruct (Hsame i j Hi Hk) as [-> ->]. rewrite Hs.
        split; [done|]. split; [|done]. intros i'.
        rewrite lookup_insert. case_decide; subst; [|done].
        rewrite Hi0. split; intros _; eexists; done.
  - pose proof (find_job_by_key_None _ _ Hf) as Hn.
    unfold bump_next_id, insert_discovered_job. unfold_tx; simpl.
    destruct (bool_decide_reflect (st_discovered_jobs st !! st_next_id st = None))
      as [Hfree|Hfree]; unfold_tx; simpl.
    + change (job_key (new_job (st_next_id st) platform pjid pl)) with (platform, pjid).
      rewrite Hf. unfold_tx; simpl. split.
      * apply unique_insert_fresh; [done| |done]. exact Hn.
      * intros i j Hi Hk. exfalso. by apply (Hn i j).
    + split; [done|]. intros i j Hi Hk. exfalso. by apply (Hn i j).
Qed.

(** * Witnesses: the theorems applied at concrete stores *)

Lemma job_queue_listEligible_witness :
  let mk i s t := {| j_id := i; j_platform := "upwork"; j_platform_job_id := "x";
                     j_budget_min := None; j_budget_max := None; j_skills_required := [];
                     j_score := Some s; j_status := js_scored; j_assigned_agent_id := None;
                     j_discovered_at := Some t; j_expires_at := None |} in
  let A := mk 1 9000 100 in
  let B := mk 2 9000 200 in
  let C := mk 3 7000 50 in
  job_queue 0 [A; B; C] = [B; A; C].
Proof.
  intros mk A B C.
  apply (proj2 job_queue_listEligible 0 100 200 A B C);
    [reflexivity|reflexivity|reflexivity|reflexivity|reflexivity|lia
    |reflexivity|reflexivity|reflexivity|].
  apply (proj1 (proj1 job_queue_listEligible 0 [A; B; C])).
Defined.

Lemma ingest_dedup_no_regression_witness :
  let pl1 := {| pl_budget_min := Some 10000; pl_budget_max := Some 20000;
                pl_skills_required := ["rust"]; pl_score := Some 8000;
                pl_status := None; pl_discovered_at := 100 |} in
  let pl0 := {| pl_budget_min := Some 5000; pl_budget_max := None;
                pl_skills_required := []; pl_score := Some 1000;
                pl_status := None; pl_discovered_at := 50 |} in
  let st1 := (atomically (ingest "upwork" "j-1" pl1) empty_store).2 in
  unique_job_keys (st_discovered_jobs empty_store) /\
  unique_job_keys (st_discovered_jobs st1) /\
  atomically (ingest "upwork" "j-1" pl0) st1 = (inr Updated, st1).
Proof.
  intros pl1 pl0 st1.
  assert (H0 : unique_job_keys (st_discovered_jobs empty_store)).
  { intros i1 i2 j1 j2 H1. simpl in H1. by rewrite lookup_empty in H1. }
  split; [exact H0|]. split; [|reflexivity].
  pose proof (proj1 ingest_dedup_no_regression "upwork" "j-1" pl1 empty_store H0) as W.
  unfold st1. revert W.
  destruct (atomically (ingest "upwork" "j-1" pl1) empty_store) as [res st'].
  intros [W _]. exact W.
Defined.

Lemma update_agent_stats_on_job_complete_witness :
  let p := {| p_id := 7; p_job_id := 3; p_agent_id := 5; p_bid_amount := 50000;
              p_status := ps_accepted |} in
  let c := contract_of 1 7 p in
  let a := {| a_id := 5; a_total_earnings := 0; a_jobs_completed := 2; a_jobs_failed := 0;
              a_last_active_at := None; a_is_deleted := false |} in
  let st := set_agents {[5 := a]} (insert_active_job c empty_store) in
  let complete (x : active_job) :=
    {| aj_id := aj_id x; aj_discovered_job_id := aj_discovered_job_id x;
       aj_agent_id := aj_agent_id x; aj_proposal_id := aj_proposal_id x;
       aj_agreed_amount := aj_agreed_amount x;
       aj_progress_percentage := 10000; aj_status := js_completed;
       aj_revision_count := aj_revision_count x; aj_max_revisions := aj_max_revisions x |} in
  st_active_jobs st !! 1 = Some c /\
  exists a', st_agents (update_active_job 100 1 complete st) !! 5 = Some a' /\
    a_jobs_completed a' = 3 /\ a_last_active_at a' = Some 100.
Proof.
  intros p c a st complete.
  assert (Hold : st_active_jobs st !! 1 = Some c) by reflexivity.
  split; [exact Hold|].
  destruct (proj1 (proj2 (update_agent_stats_on_job_complete_spec 100 1 complete st c Hold))
              eq_refl ltac:(discriminate) a eq_refl) as (a' & H1 & H2 & _ & H4).
  exists a'. split; [exact H1|]. split; [rewrite H2; reflexivity|exact H4].
Defined.

Lemma checkAndIncrement_fixed_window_witness :
  (forall t, t ∈ [0; 10; 20] -> window_start t 60 = 0) /\
  st_rate_limit_counters empty_store !! ("agent", "agent-1", "proposals", 0) = None /\
  length (run_checks "agent" "agent-1" "proposals" 2 60 [0; 10; 20] empty_store).1 = 3%nat.
Proof.
  assert (H1 : forall t, t ∈ [0; 10; 20] -> window_start t 60 = 0).
  { intros t Ht. apply list_elem_of_In in Ht. destruct Ht as [<-|[<-|[<-|[]]]]; reflexivity. }
  assert (H2 : st_rate_limit_counters empty_store !! ("agent", "agent-1", "proposals", 0) = None)
    by reflexivity.
  split; [exact H1|]. split; [exact H2|].
  pose proof (proj1 checkAndIncrement_fixed_window "agent" "agent-1" "proposals" 2 60 0
                [0; 10; 20] empty_store H1 H2) as W.
  revert W.
  destruct (run_checks "agent" "agent-1" "proposals" 2 60 [0; 10; 20] empty_store) as [rs st'].
  intros [W _]. exact W.
Defined.

Lemma updateProgress_spec_witness :
  let p := {| p_id := 7; p_job_id := 3; p_agent_id := 5; p_bid_amount := 50000;
              p_status := ps_accepted |} in
  let c0 := with_progress 5000 false (contract_of 1 7 p) in
  let st0 := insert_active_job c0 empty_store in
  st_active_jobs st0 !! 1 = Some c0 /\
  (atomically (updateProgress 0 1 4000 false) st0).1 = inl RegressionNotAllowed.
Proof.
  intros p c0 st0.
  assert (H : st_active_jobs st0 !! 1 = Some c0) by reflexivity.
  split; [exact H|].
  pose proof (proj1 updateProgress_spec 0 1 4000 false st0 c0 H) as W.
  revert W.
  destruct (atomically (updateProgress 0 1 4000 false) st0) as [res st'].
  intros (_ & W & _). simpl.
  destruct (W eq_refl eq_refl ltac:(reflexivity)) as [-> _]. reflexivity.
Defined.

Lemma agent_performance_summary_net_profit_replay_witness :
  let a := {| a_id := 5; a_total_earnings := 0; a_jobs_completed := 0; a_jobs_failed := 0;
              a_last_active_at := None; a_is_deleted := false |} in
  let j := {| j_id := 3; j_platform := "upwork"; j_platform_job_id := "j-3";
              j_budget_min := None; j_budget_max := None; j_skills_required := [];
              j_score := None; j_status := js_won; j_assigned_agent_id := Some 5;
              j_discovered_at := Some 0; j_expires_at := None |} in
  let p := {| p_id := 7; p_job_id := 3; p_agent_id := 5; p_bid_amount := 50000;
              p_status := ps_accepted |} in
  let st0 := set_agents {[5 := a]}
               (set_discovered_jobs {[3 := j]} (insert_active_job (contract_of 1 7 p) empty_store)) in
  let calls := [CallEarning 10 1 10000 1000 300 "USD";
                CallCost 20 (OwnerWorker 5) "api" 250 "USD"] in
  agents_keyed st0 /\ earnings_cached st0 /\
  exists row, agent_performance_summary (run_ledger_calls st0 calls) !! 5 = Some row /\
    ps_net_profit row = replay_net_profit (run_ledger_calls st0 calls) 5 /\
    replay_net_profit (run_ledger_calls st0 calls) 5 = 8450.
Proof.
  intros a j p st0 calls.
  assert (Hk : agents_keyed st0).
  { intros w b H. simpl in H. apply lookup_singleton_Some in H as [<- <-]. reflexivity. }
  assert (Hc : earnings_cached st0).
  { intros w b H. simpl in H. apply lookup_singleton_Some in H as [<- <-]. reflexivity. }
  split; [exact Hk|]. split; [exact Hc|].
  pose proof (agent_performance_summary_net_profit_replay st0 calls Hk Hc) as [W1 W2].
  destruct (W2 5 {| a_id := 5; a_total_earnings := 8700; a_jobs_completed := 0;
                    a_jobs_failed := 0; a_last_active_at := None; a_is_deleted := false |})
    as [row Hrow]; [vm_compute; reflexivity|reflexivity|].
  exists row. split; [exact Hrow|]. split; [exact (proj1 (W1 5 row Hrow))|].
  vm_compute. reflexivity.
Defined.

Lemma recordEarning_net_amount_witness :
  100 - 200 - 0 < 0 /\
  (atomically (recordEarning 0 1 100 200 0 "USD") empty_store).1 = inl InvalidLedgerAmount.
Proof.
  split; [lia|].
  pose proof (recordEarning_net_amount 0 1 100 200 0 "USD" empty_store) as W.
  revert W.
  destruct (atomically (recordEarning 0 1 100 200 0 "USD") empty_store) as [res st'].
  intros [W _]. simpl. destruct (W ltac:(lia)) as [-> _]. reflexivity.
Defined.

Lemma daily_earnings_report_completed_only_witness :
  let e := {| e_agent_id := 5; e_active_job_id := Some 1; e_platform := "upwork";
              e_gross_amount := 10000; e_platform_fee := 1000; e_processing_fee := 300;
              e_net_amount := 8700; e_currency := "USD"; e_status := pay_pending;
              e_earned_at := Some 0 |} in
  e_status e <> pay_completed /\
  daily_earnings_report ([] ++ e :: []) = daily_earnings_report ([] ++ []).
Proof.
  intros e.
  assert (H : e_status e <> pay_completed) by discriminate.
  split; [exact H|].
  exact (proj1 daily_earnings_report_completed_only [] [] e H).
Defined.

(** * Further properties of the schema's views and triggers *)

(** ** The ORDER BY of [daily_earnings_report] is a total order on keys *)

Lemma string_compare_le (s1 s2 : string) :
  String.compare s1 s2 <> Gt <-> String.le s1 s2.
Proof.
  unfold String.le, String.leb. destruct (String.compare s1 s2); simpl; split; done.
Qed.

Global Instance report_key_le_trans : Transitive report_key_le.
Proof.
  intros [[a1|] s1] [[a2|] s2] [[a3|] s3]; unfold report_key_le, desc_nulls_first; simpl;
    rewrite ?string_compare_le; zcmp; simpl; rewrite ?string_compare_le;
    intros H12 H23; try congruence; try lia; subst; try done;
    try (etrans; eassumption).
Qed.

Global Instance report_key_le_antisymm : AntiSymm (=) report_key_le.
Proof.
  intros [[a1|] s1] [[a2|] s2]; unfold report_key_le, desc_nulls_first; simpl;
    zcmp; simpl; rewrite ?string_compare_le; intros H12 H21; try congruence; try lia;
    subst; f_equal; by apply (anti_symm String.le).
Qed.

Global Instance report_key_le_total : Total report_key_le.
Proof.
  intros [[a1|] s1] [[a2|] s2]; unfold report_key_le, desc_nulls_first; simpl;
    zcmp; simpl; rewrite ?string_compare_le; subst; try (left; congruence);
    try (right; congruence); try apply (total String.le); lia.
Qed.

(** ** Structure of [daily_earnings_report] *)

Lemma list_lookup_map {A B} (f : A -> B) (l : list A) (i : nat) :
  List.map f l !! i = f <$> l !! i.
Proof. revert i. induction l as [|x l IH]; intros [|i]; simpl; auto. Qed.

Lemma StronglySorted_lookup_lt {A} (R : A -> A -> Prop) (l : list A) (i k : nat) (x y : A) :
  StronglySorted R l -> (i < k)%nat -> l !! i = Some x -> l !! k = Some y -> R x y.
Proof.
  intros Hs. revert i k. induction Hs as [|z l Hs IH Hall]; intros [|i] [|k] Hik Hi Hk;
    simpl in *; try lia; try done.
  - injection Hi as <-. rewrite Forall_forall in Hall. apply Hall.
    by eapply list_elem_of_lookup_2.
  - apply (IH i k); [lia|done|done].
Qed.

(** The sorted, duplicate-free list of groups the report is built from. *)
Lemma daily_earnings_report_keys_eq (l : list earning) :
  List.map (fun r => (r_date r, r_platform r)) (daily_earnings_report l) =
  merge_sort report_key_le (remove_dups (List.map report_key (List.filter report_where l))).
Proof.
  unfold daily_earnings_report. rewrite List.map_map.
  erewrite List.map_ext; [apply List.map_id|]. by intros [d p].
Qed.

Lemma report_keys_NoDup (l : list earning) :
  NoDup (merge_sort report_key_le (remove_dups (List.map report_key (List.filter report_where l)))).
Proof.
  rewrite (merge_sort_Permutation report_key_le). apply NoDup_remove_dups.
Qed.


Lemma filter_split_perm {A} (p : A -> bool) (l : list A) :
  List.filter p l ++ List.filter (fun x => negb (p x)) l ≡ₚ l.
Proof.
  induction l as [|x l IH]; simpl; [done|].
  destruct (p x); simpl.
  - by constructor.
  - symmetry. apply Permutation_cons_app. by symmetry.
Qed.

(** Splitting rows by a key over a duplicate-free list of keys covering
    every row loses and duplicates no row. *)
Lemma groups_partition {A K} `{EqDecision K} (key : A -> K) (Ks : list K) (rows : list A) :
  NoDup Ks -> (forall x, In x rows -> key x ∈ Ks) ->
  concat (List.map (fun k => List.filter (fun x => bool_decide (key x = k)) rows) Ks) ≡ₚ rows.
Proof.
  revert rows. induction Ks as [|k Ks IH]; intros rows HN Hin; simpl.
  - destruct rows as [|x rows]; [done|]. exfalso.
    specialize (Hin x (or_introl eq_refl)). by apply elem_of_nil in Hin.
  - inversion HN as [|? ? Hk HN']; subst.
    rewrite <-(filter_split_perm (fun x => bool_decide (key x = k)) rows) at 2.
    apply Permutation_app_head.
    rewrite <-(IH (List.filter (fun x => negb (bool_decide (key x = k))) rows) HN').
    + apply reflexive_eq. f_equal. apply List.map_ext_in. intros k' Hk'.
      rewrite filter_filter_andb. apply List.filter_ext. intros x.
      destruct (decide (key x = k')) as [->|Hne].
      * rewrite (bool_decide_eq_true_2 (k' = k')) by done.
        rewrite bool_decide_eq_false_2; [done|]. intros ->. apply Hk. by apply list_elem_of_In.
      * rewrite (bool_decide_eq_false_2 (key x = k')) by done. by rewrite andb_false_r.
    + intros x Hx. apply List.filter_In in Hx as [Hx Hn].
      specialize (Hin x Hx). apply elem_of_cons in Hin as [He|He]; [|done].
      rewrite bool_decide_eq_true_2 in Hn by done. discriminate.
Qed.

Lemma sum_lengths_concat {A} (L : list (list A)) :
  fold_right Nat.add 0%nat (List.map (@length A) L) = length (concat L).
Proof. induction L as [|g L IH]; simpl; [done|]. rewrite length_app. lia. Qed.

Lemma sum_sums_concat {A} (f : A -> Z) (L : list (list A)) :
  fold_right Z.add 0 (List.map (fun g => fold_right Z.add 0 (List.map f g)) L) =
  fold_right Z.add 0 (List.map f (concat L)).
Proof. induction L as [|g L IH]; simpl; [done|]. rewrite List.map_app, sum_app. lia. Qed.

Lemma report_groups_perm (l : list earning) :
  concat (List.map (fun k => List.filter (fun e => bool_decide (report_key e = k))
                               (List.filter report_where l))
             (merge_sort report_key_le (remove_dups (List.map report_key (List.filter report_where l)))))
  ≡ₚ List.filter report_where l.
Proof.
  apply groups_partition; [apply report_keys_NoDup|].
  intros x Hx. rewrite (merge_sort_Permutation report_key_le), elem_of_remove_dups,
    list_elem_of_In. by apply List.in_map.
Qed.

Lemma filter_perm {A} (p : A -> bool) (l1 l2 : list A) :
  l1 ≡ₚ l2 -> List.filter p l1 ≡ₚ List.filter p l2.
Proof.
  induction 1 as [|x l1 l2 _ IH|x y l|l1 l2 l3 _ IH1 _ IH2]; simpl.
  - done.
  - destruct (p x); [by constructor|done].
  - destruct (p x), (p y); try constructor; done.
  - by etrans.
Qed.

Lemma report_group_perm (rows rows' : list earning) (k : option Z * string) :
  rows ≡ₚ rows' -> report_group rows k = report_group rows' k.
Proof.
  intros Hp. unfold report_group.
  pose proof (filter_perm (fun e => bool_decide (report_key e = k)) _ _ Hp) as Hf.
  f_equal.
  - by apply Permutation_length.
  - apply sum_Permutation. by apply Permutation_map.
  - apply sum_Permutation. by apply Permutation_map.
  - apply sum_Permutation. by apply Permutation_map.
Qed.


(** X2: the report's totals are the totals of the completed earnings:
    summed over all rows, the transaction counts give the number of
    completed earnings, and the gross, fee and net columns give their
    gross, platform-fee and net sums. *)
Theorem daily_earnings_report_totals (l : list earning) :
  let done_ := List.filter report_where l in
  let R := daily_earnings_report l in
  fold_right Nat.add 0%nat (List.map r_transaction_count R) = length done_ /\
  fold_right Z.add 0 (List.map r_gross_earnings R) =
    fold_right Z.add 0 (List.map e_gross_amount done_) /\
  fold_right Z.add 0 (List.map r_platform_fees R) =
    fold_right Z.add 0 (List.map e_platform_fee done_) /\
  fold_right Z.add 0 (List.map r_net_earnings R) =
    fold_right Z.add 0 (List.map e_net_amount done_).
Proof.
  intros done_ R. unfold R, daily_earnings_report. fold done_.
  pose proof (report_groups_perm l) as Hp. fold done_ in Hp.
  set (Ks := merge_sort report_key_le (remove_dups (List.map report_key done_))) in *.
  set (G := fun k => List.filter (fun e => bool_decide (report_key e = k)) done_) in *.
  rewrite !List.map_map.
  split; [|split; [|split]].
  - rewrite (List.map_ext _ (fun k => length (G k))) by done.
    rewrite <-(List.map_map G (@length earning)), sum_lengths_concat.
    by apply Permutation_length.
  - rewrite (List.map_ext _ (fun k => fold_right Z.add 0 (List.map e_gross_amount (G k)))) by done.
    rewrite <-(List.map_map G (fun g => fold_right Z.add 0 (List.map e_gross_amount g))),
      sum_sums_concat.
    apply sum_Permutation. by apply Permutation_map.
  - rewrite (List.map_ext _ (fun k => fold_right Z.add 0 (List.map e_platform_fee (G k)))) by done.
    rewrite <-(List.map_map G (fun g => fold_right Z.add 0 (List.map e_platform_fee g))),
      sum_sums_concat.
    apply sum_Permutation. by apply Permutation_map.
  - rewrite (List.map_ext _ (fun k => fold_right Z.add 0 (List.map e_net_amount (G k)))) by done.
    rewrite <-(List.map_map G (fun g => fold_right Z.add 0 (List.map e_net_amount g))),
      sum_sums_concat.
    apply sum_Permutation. by apply Permutation_map.
Qed.

(** X3: the report does not depend on the order in which the earnings
    rows are stored or scanned. *)
Theorem daily_earnings_report_scan_order (l l' : list earning) :
  l ≡ₚ l' -> daily_earnings_report l = daily_earnings_report l'.
Proof.
  intros Hp. unfold daily_earnings_report.
  pose proof (filter_perm report_where _ _ Hp) as Hf.
  assert (HK : merge_sort report_key_le (remove_dups (List.map report_key (List.filter report_where l)))
             = merge_sort report_key_le (remove_dups (List.map report_key (List.filter report_where l')))).
  { apply (Sorted_unique report_key_le); [apply Sorted_merge_sort; apply _..|].
    rewrite !(merge_sort_Permutation report_key_le).
    apply NoDup_Permutation; [apply NoDup_remove_dups..|].
    intros k. rewrite !elem_of_remove_dups.
    assert (Hm : List.map report_key (List.filter report_where l)
                 ≡ₚ List.map report_key (List.filter report_where l'))
      by (by apply Permutation_map).
    by rewrite Hm. }
  rewrite HK. apply List.map_ext. intros k. by apply report_group_perm.
Qed.

(** X4: rows are listed by date, newest first, the row of earnings with
    no [earned_at] (a NULL date) before every dated row, and rows of the
    same date by platform in strictly increasing string order. *)
Theorem daily_earnings_report_row_order (l : list earning) (i k : nat) (r1 r2 : report_row) :
  (i < k)%nat -> daily_earnings_report l !! i = Some r1 -> daily_earnings_report l !! k = Some r2 ->
  (r_date r2 = None -> r_date r1 = None) /\
  (forall d1 d2, r_date r1 = Some d1 -> r_date r2 = Some d2 -> d2 <= d1) /\
  (r_date r1 = r_date r2 -> String.compare (r_platform r1) (r_platform r2) = Lt).
Proof.
  intros Hik H1 H2.
  pose proof (daily_earnings_report_keys_eq l) as HK.
  assert (Hs : StronglySorted report_key_le
                 (List.map (fun r => (r_date r, r_platform r)) (daily_earnings_report l))).
  { rewrite HK. apply StronglySorted_merge_sort; apply _. }
  assert (Hn : NoDup (List.map (fun r => (r_date r, r_platform r)) (daily_earnings_report l))).
  { rewrite HK. apply report_keys_NoDup. }
  assert (L1 : List.map (fun r => (r_date r, r_platform r)) (daily_earnings_report l) !! i
               = Some (r_date r1, r_platform r1)) by (by rewrite list_lookup_map, H1).
  assert (L2 : List.map (fun r => (r_date r, r_platform r)) (daily_earnings_report l) !! k
               = Some (r_date r2, r_platform r2)) by (by rewrite list_lookup_map, H2).
  pose proof (StronglySorted_lookup_lt _ _ _ _ _ _ Hs Hik L1 L2) as Hle.
  assert (Hne : (r_date r1, r_platform r1) <> (r_date r2, r_platform r2)).
  { intros Heq. rewrite Heq in L1.
    pose proof (NoDup_lookup _ i k _ Hn L1 L2). lia. }
  unfold report_key_le, desc_nulls_first in Hle. simpl in Hle.
  destruct (r_date r1) as [d1|], (r_date r2) as [d2|]; simpl in Hle.
  - split; [done|]. split.
    + intros ? ? [= <-] [= <-]. destruct (Z.compare_spec d2 d1); done || lia.
    + intros [= ->]. rewrite Z.compare_refl in Hle.
      destruct (String.compare (r_platform r1) (r_platform r2)) eqn:Hc; try done.
      apply String.compare_eq_iff in Hc. congruence.
  - done.
  - split; [done|]. split; [done|]. done.
  - split; [done|]. split; [done|]. intros _.
    destruct (String.compare (r_platform r1) (r_platform r2)) eqn:Hc; try done.
    apply String.compare_eq_iff in Hc. congruence.
Qed.


(** ** The cost columns of [agent_performance_summary] *)

Lemma agent_costs_app_single (w : Z) (l : list cost) (x : cost) :
  agent_costs w (l ++ [x]) =
  agent_costs w l ++ (if bool_decide (c_agent_id x = Some w) then [c_total_amount x] else []).
Proof.
  unfold agent_costs. rewrite List.filter_app, List.map_app. simpl.
  by destruct (bool_decide (c_agent_id x = Some w)).
Qed.

Lemma sql_sum_snoc (l : list Z) (v : Z) :
  sql_sum (l ++ [v]) = Some (coalesce (sql_sum l) 0 + v).
Proof.
  rewrite coalesce_sql_sum. unfold sql_sum. destruct (l ++ [v]) eqn:E.
  - by destruct l.
  - rewrite <-E, sum_app. simpl. f_equal. lia.
Qed.

(** X6: inserting a cost row changes only the row of the Worker it names:
    that row's [total_costs] goes from NULL (no cost yet) or its previous
    sum to the sum including the new amount, and its [net_profit] drops
    by the amount.  A cost with no [agent_id] (a Contract-level cost)
    changes no row of the view. *)
Theorem agent_performance_summary_insert_cost (st : store) (x : cost) (w : Z) :
  agent_performance_summary (append_cost x st) !! w =
  (fun row =>
     if bool_decide (c_agent_id x = Some (ps_id row)) then
       {| ps_id := ps_id row; ps_total_earnings := ps_total_earnings row;
          ps_total_costs := Some (coalesce (ps_total_costs row) 0 + c_total_amount x);
          ps_net_profit := ps_net_profit row - c_total_amount x |}
     else row) <$> agent_performance_summary st !! w.
Proof.
  unfold agent_performance_summary. rewrite !lookup_omap. simpl.
  destruct (st_agents st !! w) as [a|]; simpl; [|done].
  destruct (a_is_deleted a); simpl; [done|].
  rewrite agent_costs_app_single.
  destruct (bool_decide (c_agent_id x = Some (a_id a))); simpl; [|by rewrite app_nil_r].
  rewrite sql_sum_snoc, !coalesce_sql_sum. f_equal. f_equal. simpl. lia.
Qed.

(** ** The trigger [update_agent_stats_on_job_complete] *)


(** ** The trigger seen through the view's count columns *)

Lemma count_values_insert {V} (P : V -> bool) (m : gmap Z V) (i : Z) (old new : V) :
  m !! i = Some old ->
  (length (List.filter P (List.map snd (map_to_list (<[i := new]> m))))
   + (if P old then 1 else 0) =
   length (List.filter P (List.map snd (map_to_list m))) + (if P new then 1 else 0))%nat.
Proof.
  intros Hi.
  rewrite <-(insert_delete_eq m i new).
  rewrite <-(insert_delete_id m i old Hi) at 2.
  rewrite !(Permutation_length (filter_perm P _ _
              (Permutation_map snd (map_to_list_insert (delete i m) i _ (lookup_delete_eq m i))))).
  simpl. destruct (P new), (P old); simpl; lia.
Qed.

(** X8: closing an in-progress Contract through an UPDATE is seen by the
    view's count columns of its Worker: moving it to [completed] raises
    [jobs_completed] by one, moving it to [cancelled] or [disputed] raises
    [jobs_failed] by one, and either way [active_jobs] drops by one while
    [pending_proposals] is unchanged (agents stored under their own id,
    the Contract keeping its Worker). *)
Theorem agent_performance_counts_close_contract (now i : Z) (f : active_job -> active_job)
    (st : store) (old : active_job) (pc : performance_counts)
    (Hk : agents_keyed st) (Hold : st_active_jobs st !! i = Some old)
    (Hip : aj_status old = js_in_progress) (Hag : aj_agent_id (f old) = aj_agent_id old)
    (Hclose : aj_status (f old) ∈ [js_completed; js_cancelled; js_disputed])
    (Hpc : agent_performance_counts st !! aj_agent_id old = Some pc) :
  exists pc', agent_performance_counts (update_active_job now i f st) !! aj_agent_id old = Some pc' /\
    pc_jobs_completed pc' =
      pc_jobs_completed pc + (if bool_decide (aj_status (f old) = js_completed) then 1 else 0) /\
    pc_jobs_failed pc' =
      pc_jobs_failed pc + (if bool_decide (aj_status (f old) = js_completed) then 0 else 1) /\
    (pc_active_jobs pc' + 1 = pc_active_jobs pc)%nat /\
    pc_pending_proposals pc' = pc_pending_proposals pc.
Proof.
  unfold agent_performance_counts in *. rewrite lookup_omap in Hpc.
  destruct (st_agents st !! aj_agent_id old) as [a|] eqn:Ha; simpl in Hpc; [|done].
  destruct (a_is_deleted a) eqn:Hd; [done|]. injection Hpc as <-.
  pose proof (Hk _ _ Ha) as Hid.
  unfold update_active_job. rewrite Hold. simpl.
  rewrite lookup_omap. unfold update_agent_stats_on_job_complete.
  rewrite Hag, Hip.
  pose proof (count_values_insert
    (fun c => bool_decide (aj_agent_id c = a_id a) && bool_decide (aj_status c = js_in_progress))
    (st_active_jobs st) i old (f old) Hold) as Hc.
  rewrite Hid, Hag, Hip in Hc. simpl in Hc.
  assert (Hnip : aj_status (f old) <> js_in_progress).
  { intros Hs. rewrite Hs in Hclose. rewrite !elem_of_cons, elem_of_nil in Hclose.
    naive_solver. }
  rewrite (bool_decide_eq_false_2 (aj_status (f old) = js_in_progress)) in Hc by done.
  rewrite (bool_decide_eq_true_2 (aj_agent_id old = aj_agent_id old)) in Hc by done.
  simpl in Hc.
  destruct (bool_decide (aj_status (f old) = js_completed)) eqn:Hcomp; simpl.
  - rewrite lookup_alter_eq, Ha. simpl. rewrite Hd. eexists. split; [reflexivity|].
    simpl. rewrite Hid. repeat split; lia.
  - assert (Hfail : status_in (aj_status (f old)) [js_cancelled; js_disputed] = true).
    { unfold status_in. apply bool_decide_eq_true_2.
      apply bool_decide_eq_false_1 in Hcomp.
      apply elem_of_cons in Hclose as [?|?]; [done|done]. }
    rewrite Hfail. simpl. rewrite lookup_alter_eq, Ha. simpl. rewrite Hd. eexists.
    split; [reflexivity|]. simpl. rewrite Hid. repeat split; lia.
Qed.

(** ** The [job_queue] view over time and by position *)

Lemma job_queue_elem (now : Z) (db : list discovered_job) (j : discovered_job) :
  j ∈ job_queue now db <-> j ∈ db /\ job_queue_where now j = true.
Proof.
  unfold job_queue. rewrite (merge_sort_Permutation job_queue_le), !list_elem_of_In.
  apply List.filter_In.
Qed.

(** X9: with the table unchanged, the queue only loses rows as time
    passes: a row listed at a later time is listed at every earlier time;
    and a row whose [expires_at] has been reached is never listed. *)
Theorem job_queue_shrinks_over_time (now1 now2 : Z) (db : list discovered_job)
    (j : discovered_job) :
  (now1 <= now2 -> j ∈ job_queue now2 db -> j ∈ job_queue now1 db) /\
  (forall e, j_expires_at j = Some e -> e <= now2 -> j ∉ job_queue now2 db).
Proof.
  rewrite !job_queue_elem. unfold job_queue_where. split.
  - intros Hle [Hj Hw]. split; [done|].
    apply andb_prop in Hw as [Hs He]. rewrite Hs. simpl.
    destruct (j_expires_at j) as [e|]; [|done].
    apply Z.ltb_lt in He. apply Z.ltb_lt. lia.
  - intros e He Hle Hin. apply job_queue_elem in Hin as [_ Hw].
    unfold job_queue_where in Hw. rewrite He in Hw.
    apply andb_prop in Hw as [_ Hw]. apply Z.ltb_lt in Hw. lia.
Qed.

(** X10: in every answer of the view, a row with a NULL score comes after
    every row with a score; scores never increase down the list; and
    among rows of equal score a NULL [discovered_at] comes first and
    [discovered_at] never increases. *)
Theorem job_queue_positions (now : Z) (db r : list discovered_job) (i k : nat)
    (j1 j2 : discovered_job) :
  job_queue_result now db r -> (i < k)%nat -> r !! i = Some j1 -> r !! k = Some j2 ->
  (j_score j1 = None -> j_score j2 = None) /\
  (forall s1 s2, j_score j1 = Some s1 -> j_score j2 = Some s2 -> s2 <= s1) /\
  (j_score j1 = j_score j2 ->
     (j_discovered_at j2 = None -> j_discovered_at j1 = None) /\
     (forall t1 t2, j_discovered_at j1 = Some t1 -> j_discovered_at j2 = Some t2 -> t2 <= t1)).
Proof.
  intros [_ Hs] Hik H1 H2.
  apply Sorted_StronglySorted in Hs; [|apply _].
  pose proof (StronglySorted_lookup_lt _ _ _ _ _ _ Hs Hik H1 H2) as Hle.
  unfold job_queue_le, job_queue_key_le, job_queue_key_cmp, job_queue_key in Hle. simpl in Hle.
  unfold desc_nulls_last, desc_nulls_first in Hle.
  destruct (j_score j1) as [s1|], (j_score j2) as [s2|],
    (j_discovered_at j1) as [t1|], (j_discovered_at j2) as [t2|];
    repeat split; intros; simplify_eq; try done;
    repeat match goal with
    | H : context [Z.compare ?x ?y] |- _ => revert H; destruct (Z.compare_spec x y); intros H
    end; try congruence; lia.
Qed.

(** ** Witnesses of the further properties *)

Lemma daily_earnings_report_scan_order_witness :
  let mke (p : string) (t : option Z) (g : Z) :=
    {| e_agent_id := 5; e_active_job_id := Some 1; e_platform := p;
       e_gross_amount := g; e_platform_fee := 0; e_processing_fee := 0;
       e_net_amount := g; e_currency := "USD"; e_status := pay_completed;
       e_earned_at := t |} in
  let l := [mke "upwork" (Some 86400) 100; mke "fiverr" (Some 86500) 50] in
  let l' := [mke "fiverr" (Some 86500) 50; mke "upwork" (Some 86400) 100] in
  l ≡ₚ l' /\ daily_earnings_report l = daily_earnings_report l'.
Proof.
  intros mke l l'.
  assert (Hp : l ≡ₚ l') by (unfold l, l'; constructor).
  split; [exact Hp|]. exact (daily_earnings_report_scan_order l l' Hp).
Defined.

Lemma daily_earnings_report_row_order_witness :
  let mke (p : string) (t : option Z) (g : Z) :=
    {| e_agent_id := 5; e_active_job_id := Some 1; e_platform := p;
       e_gross_amount := g; e_platform_fee := 0; e_processing_fee := 0;
       e_net_amount := g; e_currency := "USD"; e_status := pay_completed;
       e_earned_at := t |} in
  let l := [mke "upwork" (Some 86400) 100; mke "fiverr" (Some 86500) 50; mke "upwork" None 7] in
  let r1 := {| r_date := Some 1; r_platform := "fiverr"; r_transaction_count := 1;
               r_gross_earnings := 50; r_platform_fees := 0; r_net_earnings := 50 |} in
  let r2 := {| r_date := Some 1; r_platform := "upwork"; r_transaction_count := 1;
               r_gross_earnings := 100; r_platform_fees := 0; r_net_earnings := 100 |} in
  daily_earnings_report l !! 1%nat = Some r1 /\ daily_earnings_report l !! 2%nat = Some r2 /\
  String.compare (r_platform r1) (r_platform r2) = Lt.
Proof.
  intros mke l r1 r2.
  assert (H1 : daily_earnings_report l !! 1%nat = Some r1) by (vm_compute; reflexivity).
  assert (H2 : daily_earnings_report l !! 2%nat = Some r2) by (vm_compute; reflexivity).
  split; [exact H1|]. split; [exact H2|].
  exact (proj2 (proj2 (daily_earnings_report_row_order l 1 2 r1 r2 ltac:(lia) H1 H2)) eq_refl).
Defined.


Lemma agent_performance_counts_close_contract_witness :
  let p := {| p_id := 7; p_job_id := 3; p_agent_id := 5; p_bid_amount := 50000;
              p_status := ps_accepted |} in
  let c := contract_of 1 7 p in
  let a := {| a_id := 5; a_total_earnings := 0; a_jobs_completed := 2; a_jobs_failed := 0;
              a_last_active_at := None; a_is_deleted := false |} in
  let st := set_agents {[5 := a]} (insert_active_job c empty_store) in
  let complete (x : active_job) :=
    {| aj_id := aj_id x; aj_discovered_job_id := aj_discovered_job_id x;
       aj_agent_id := aj_agent_id x; aj_proposal_id := aj_proposal_id x;
       aj_agreed_amount := aj_agreed_amount x;
       aj_progress_percentage := 10000; aj_status := js_completed;
       aj_revision_count := aj_revision_count x; aj_max_revisions := aj_max_revisions x |} in
  let pc := {| pc_id := 5; pc_jobs_completed := 2; pc_jobs_failed := 0;
               pc_active_jobs := 1; pc_pending_proposals := 0 |} in
  agents_keyed st /\ agent_performance_counts st !! 5 = Some pc /\
  exists pc', agent_performance_counts (update_active_job 100 1 complete st) !! 5 = Some pc' /\
    pc_jobs_completed pc' = 3 /\ pc_active_jobs pc' = 0%nat.
Proof.
  intros p c a st complete pc.
  assert (Hk : agents_keyed st).
  { intros w b H. simpl in H. apply lookup_singleton_Some in H as [<- <-]. reflexivity. }
  assert (Hpc : agent_performance_counts st !! 5 = Some pc) by (vm_compute; reflexivity).
  split; [exact Hk|]. split; [exact Hpc|].
  destruct (agent_performance_counts_close_contract 100 1 complete st c pc Hk eq_refl eq_refl
              eq_refl ltac:(left) Hpc) as (pc' & H1 & H2 & _ & H4 & _).
  exists pc'. split; [exact H1|]. split; [rewrite H2; reflexivity|].
  unfold pc in H4. simpl in H4. lia.
Defined.

Lemma job_queue_positions_witness :
  let mk i s t := {| j_id := i; j_platform := "upwork"; j_platform_job_id := "x";
                     j_budget_min := None; j_budget_max := None; j_skills_required := [];
                     j_score := Some s; j_status := js_scored; j_assigned_agent_id := None;
                     j_discovered_at := Some t; j_expires_at := None |} in
  let A := mk 1 9000 100 in
  let C := mk 3 7000 200 in
  let db := [C; A] in
  job_queue 0 db !! 0%nat = Some A /\ job_queue 0 db !! 1%nat = Some C /\ 7000 <= 9000.
Proof.
  intros mk A C db.
  assert (H1 : job_queue 0 db !! 0%nat = Some A) by (vm_compute; reflexivity).
  assert (H2 : job_queue 0 db !! 1%nat = Some C) by (vm_compute; reflexivity).
  split; [exact H1|]. split; [exact H2|].
  exact (proj1 (proj2 (job_queue_positions 0 db (job_queue 0 db) 0 1 A C
           (job_queue_is_result 0 db) ltac:(lia) H1 H2)) 9000 7000 eq_refl eq_refl).
Defined.
